(** * PhotoSwipe Cleaner: the triage session of [photoswipe_cleaner.py]

    A shallow embedding of the session logic of the [PhotoSwipeCleaner]
    window (the ordered file list, the cursor, the single undo record, the
    backup directory used for deferred deletes) together with the file
    system and the user interface it talks to, followed by the properties
    of the session state machine.

    Conventions of the embedding.
    - [pathlib.Path] values are kept in their string form; the operators
      [/], [.name], [.parent] and [relative_to] are modelled on normalised
      POSIX paths.
    - The file system is a finite map from the path of every regular file
      to its bytes, together with the set of the paths that are directories.
      [Path.exists()] is true of both; [mkdir] adds to the set and is taken
      to succeed.
    - What the program cannot decide by itself is read from an [Env]: whether
      Qt can decode a file, whether the operating system lets a move or an
      unlink through and what a refused move leaves behind, the hash of a
      path, the shuffle drawn for a seed, and how many nested calls of
      [show_current] the interpreter allows before it raises
      [RecursionError].
    - The answers of the operator to the successive finish dialogs are a
      list; once it is used up every further dialog is dismissed, which Qt
      reports as the reject button ([Sair]).
    - Python's [int] is [Z]. *)

From stdpp Require Import gmap strings list fin_maps pretty.
From Stdlib Require Import Ascii ZArith Lia.

Open Scope string_scope.

(** ** Strings and paths *)

Module Paths.

Definition slash : ascii := "/"%char.
Definition dot : ascii := "."%char.

(** [d / n] of pathlib, on a normalised directory and a relative name. *)
Definition join (d n : string) : string := d +:+ "/" +:+ n.

(** Split at the last separator: [Some (parent, name)]. *)
Fixpoint rsplit (p : string) : option (string * string) :=
  match p with
  | "" => None
  | String c r =>
      match rsplit r with
      | Some (d, n) => Some (String c d, n)
      | None => if decide (c = slash) then Some ("", r) else None
      end
  end.

(** [Path(p).name] *)
Definition name (p : string) : string :=
  match rsplit p with Some (_, n) => n | None => p end.

(** [Path(p).parent] *)
Definition parent (p : string) : string :=
  match rsplit p with Some (d, _) => d | None => "." end.

(** [s.startswith(pre)], returning the rest. *)
Fixpoint strip_prefix (pre s : string) : option string :=
  match pre, s with
  | "", _ => Some s
  | String a pre', String b s' =>
      if decide (a = b) then strip_prefix pre' s' else None
  | String _ _, "" => None
  end.

(** [p.relative_to(root)]: [None] stands for the [ValueError]. *)
Definition relative_to (p root : string) : option string :=
  strip_prefix (root +:+ "/") p.

(** [d in p.parents] *)
Definition is_under (d p : string) : bool :=
  bool_decide (is_Some (relative_to p d)).

(** [s.rfind(c)], [-1] when absent. *)
Fixpoint rfind (c : ascii) (s : string) : Z :=
  match s with
  | "" => (-1)%Z
  | String a r =>
      let i := rfind c r in
      if decide (0 <= i)%Z then (i + 1)%Z
      else if decide (a = c) then 0%Z else (-1)%Z
  end.

Fixpoint all_dots (s : string) : bool :=
  match s with
  | "" => true
  | String a r => if decide (a = dot) then all_dots r else false
  end.

(** [os.path.splitext]: the extension starts at the last dot of the last
    component, unless only dots precede it there (the loop of
    [genericpath._splitext] that skips leading dots). *)
Definition splitext (p : string) : string * string :=
  let sepIndex := rfind slash p in
  let dotIndex := rfind dot p in
  if decide (sepIndex < dotIndex)%Z then
    let filenameIndex := Z.to_nat (sepIndex + 1) in
    let d := Z.to_nat dotIndex in
    if all_dots (String.substring filenameIndex (d - filenameIndex) p)
    then (p, "")
    else (String.substring 0 d p,
          String.substring d (String.length p - d) p)
  else (p, "").

Definition lower_char (c : ascii) : ascii :=
  let n := nat_of_ascii c in
  if decide (65 ≤ n ≤ 90)%nat then ascii_of_nat (n + 32) else c.

(** [s.lower()] on ASCII. *)
Fixpoint lower (s : string) : string :=
  match s with
  | "" => ""
  | String c r => String (lower_char c) (lower r)
  end.

(** [Path(p).parents], nearest first and up to the first component: the
    directories [mkdir(parents=True)] makes on the way to [p]. *)
Fixpoint parents_from (fuel : nat) (p : string) : list string :=
  match fuel with
  | O => []
  | S fuel' =>
      match rsplit p with
      | Some (d, _) => d :: parents_from fuel' d
      | None => []
      end
  end.

Definition parents (p : string) : list string :=
  parents_from (String.length p) p.

(** [Path(p).suffix] *)
Definition suffix (p : string) : string :=
  let n := name p in
  let i := rfind dot n in
  if decide (0 < i < Z.of_nat (String.length n) - 1)%Z
  then String.substring (Z.to_nat i) (String.length n - Z.to_nat i) n
  else "".

End Paths.

Infix "//" := Paths.join (at level 45, left associativity).

(** ** The file system *)

(** Regular files: path to bytes. *)
Abbreviation FS := (gmap string string).

(** [Path.exists()]: a regular file or a directory bears the name. *)
Definition path_exists (fs : FS) (ds : gset string) (p : string) : bool :=
  bool_decide (is_Some (fs !! p) ∨ p ∈ ds).

(** ** The environment *)

Record Env := {
  (** Qt decodes these bytes as an image ([QPixmap] is not null). *)
  decodes : string → bool;
  (** the operating system carries out [shutil.move src dst] *)
  mv_ok : string → string → bool;
  (** what a refused [shutil.move src dst] of a file holding these bytes
      leaves at [dst]: nothing, or the copy it had begun *)
  mv_left : string → string → string → option string;
  (** the operating system carries out [Path.unlink] *)
  rm_ok : string → bool;
  (** [hash(path)] *)
  path_hash : string → Z;
  (** [random.seed(seed); random.shuffle(files)] *)
  random_shuffle : Z → list string → list string;
  (** the nested calls of [show_current] the interpreter allows below the
      first before it raises [RecursionError] *)
  recursion_room : nat
}.

Section FileSystem.
Variable E : Env.

(** [shutil.move(src, dst)] of a regular file to a path that nothing
    bears; [None] is the raised exception.  The window moves regular files
    only, the image on display and the file it staged, and computes the
    destination with [unique_name]. *)
Definition fs_move (src dst : string) (fs : FS) : option FS :=
  match fs !! src with
  | Some bytes =>
      if mv_ok E src dst then Some (<[dst := bytes]> (delete src fs))
      else None
  | None => None
  end.

(** The files a [shutil.move] that raised leaves behind.  It renames and,
    when the rename is refused, copies the file and unlinks the source: when
    it raises, the source is still in place and a copy, complete or not,
    may sit at the destination.  A missing source changes nothing. *)
Definition fs_move_failed (src dst : string) (fs : FS) : FS :=
  match fs !! src with
  | Some bytes =>
      match mv_left E src dst bytes with
      | Some rest => <[dst := rest]> fs
      | None => fs
      end
  | None => fs
  end.

(** [try: p.unlink(missing_ok=True) / except Exception: pass] *)
Definition try_unlink (p : string) (fs : FS) : FS :=
  if rm_ok E p then delete p fs else fs.

End FileSystem.

(** ** [unique_name] *)

Definition BACKUP_DIRNAME : string := ".pswipe_last_backup".

(** [f"{stem}__pswipe_{i}{suf}"] *)
Definition pswipe_name (stem suf : string) (i : nat) : string :=
  stem +:+ "__pswipe_" +:+ pretty i +:+ suf.

(** The [while True] loop of [unique_name], from counter [i].  The loop
    leaves at the first free candidate; [fuel] bounds the number of further
    rounds and is never used up when it is at least the number of files and
    directories (lemmas [some_candidate_free] and
    [unique_name_from_first]). *)
Fixpoint unique_name_from (fuel : nat) (fs : FS) (ds : gset string)
    (target_dir stem suf : string) (i : nat) : string :=
  let cand := target_dir // pswipe_name stem suf i in
  if negb (path_exists fs ds cand) then cand
  else match fuel with
       | O => cand
       | S fuel' => unique_name_from fuel' fs ds target_dir stem suf (S i)
       end.

Definition unique_name (fs : FS) (ds : gset string)
    (target_dir base_name : string) : string :=
  let cand := target_dir // base_name in
  if negb (path_exists fs ds cand) then cand
  else
    let '(stem, suf) := Paths.splitext base_name in
    unique_name_from (size fs + size ds) fs ds target_dir stem suf 1.

(** ** The session: the fields of [PhotoSwipeCleaner] *)

(** [last_action] is a dict built in two shapes only,
    [{'type': 'keep', 'prev_index': i}] and
    [{'type': 'delete', 'orig_rel': r, 'backup_path': b}]. *)
Inductive Action :=
| Keep (prev_index : Z)
| Delete (orig_rel backup_path : string).

Record App := {
  folder : option string;
  files_order : list string;
  index : Z;
  last_action : option Action;
  finished_dialog_shown : bool
}.

(** The object as [__init__] leaves it when no folder is given. *)
Definition init : App :=
  {| folder := None; files_order := []; index := 0;
     last_action := None; finished_dialog_shown := false |}.

Definition set_folder (f : option string) (a : App) : App :=
  {| folder := f; files_order := files_order a; index := index a;
     last_action := last_action a;
     finished_dialog_shown := finished_dialog_shown a |}.

Definition set_files_order (l : list string) (a : App) : App :=
  {| folder := folder a; files_order := l; index := index a;
     last_action := last_action a;
     finished_dialog_shown := finished_dialog_shown a |}.

Definition set_index (i : Z) (a : App) : App :=
  {| folder := folder a; files_order := files_order a; index := i;
     last_action := last_action a;
     finished_dialog_shown := finished_dialog_shown a |}.

Definition set_last_action (x : option Action) (a : App) : App :=
  {| folder := folder a; files_order := files_order a; index := index a;
     last_action := x;
     finished_dialog_shown := finished_dialog_shown a |}.

Definition set_finished_dialog_shown (b : bool) (a : App) : App :=
  {| folder := folder a; files_order := files_order a; index := index a;
     last_action := last_action a; finished_dialog_shown := b |}.

(** [len(self.files_order)] *)
Definition len (a : App) : Z := Z.of_nat (length (files_order a)).

(** ** The world around the window *)

(** The button that closes the finish dialog. *)
Inductive Button := BtnShuffle | BtnExit | BtnOther.

(** What the window shows, newest first in [ui]. *)
Inductive UiEvent :=
| Information (title : string)
| Critical (title : string)
| StatusMessage (text : string)
| StatusPosition (file_name : string) (position total : Z)
| SetImage (path : string)
| FinishDialog (clicked : Button)
| WindowClosed.

Record World := {
  fs : FS;
  dirs : gset string;
  now : Z;
  answers : list Button;
  ui : list UiEvent
}.

Definition set_fs (m : FS) (w : World) : World :=
  {| fs := m; dirs := dirs w; now := now w; answers := answers w;
     ui := ui w |}.

Definition set_dirs (ds : gset string) (w : World) : World :=
  {| fs := fs w; dirs := ds; now := now w; answers := answers w;
     ui := ui w |}.

(** [d.mkdir(exist_ok=True)] *)
Definition mkdir (d : string) (w : World) : World :=
  set_dirs ({[d]} ∪ dirs w) w.

(** [d.mkdir(parents=True, exist_ok=True)] *)
Definition mkdir_parents (d : string) (w : World) : World :=
  set_dirs (list_to_set (d :: Paths.parents d) ∪ dirs w) w.

(** The world once the file at [src] has been moved away, the files being
    then [m]: nothing bears the name [src] any more, which held a file and
    so was no directory. *)
Definition moved (src : string) (m : FS) (w : World) : World :=
  set_dirs (dirs w ∖ {[src]}) (set_fs m w).

Definition set_answers (l : list Button) (w : World) : World :=
  {| fs := fs w; dirs := dirs w; now := now w; answers := l; ui := ui w |}.

Definition say (e : UiEvent) (w : World) : World :=
  {| fs := fs w; dirs := dirs w; now := now w; answers := answers w;
     ui := e :: ui w |}.

(** ** Lists the way Python indexes them *)

(** [l.pop(i)] inside [try: ... except Exception: pass]: a negative index
    counts from the end, an index out of range leaves the list as it is. *)
Definition list_pop (i : Z) (l : list string) : list string :=
  let n := Z.of_nat (length l) in
  if decide (0 <= i < n)%Z then delete (Z.to_nat i) l
  else if decide (- n <= i < 0)%Z then delete (Z.to_nat (n + i)) l
  else l.

(** [l.insert(i, x)] *)
Definition list_insert_at (i : Z) (x : string) (l : list string)
  : list string :=
  let n := Z.of_nat (length l) in
  let k := if decide (i < 0)%Z then Z.max 0 (n + i) else Z.min i n in
  take (Z.to_nat k) l ++ x :: drop (Z.to_nat k) l.

(** ** Scanning *)

Definition IMG_EXT : list string :=
  [".jpg"; ".jpeg"; ".png"; ".gif"; ".bmp"; ".tiff"; ".webp"; ".heic";
   ".heif"].

(** [root.rglob('*')] restricted to regular files, in the order of the map. *)
Definition rglob (root : string) (m : FS) : list string :=
  filter (λ p, is_Some (Paths.relative_to p root)) (map fst (map_to_list m)).

Definition scan_images_recursive (root : string) (m : FS) : list string :=
  let backup_dir := root // BACKUP_DIRNAME in
  omap (λ p,
      if Paths.is_under backup_dir p then None
      else if bool_decide (Paths.lower (Paths.suffix p) ∈ IMG_EXT)
           then Paths.relative_to p root
           else None)
    (rglob root m).

(** ** The methods of the window *)

Section Window.
Variable E : Env.

(** [QPixmap(str(p)).isNull()]: no such file, or bytes Qt cannot decode. *)
Definition pix_is_null (m : FS) (p : string) : bool :=
  match m !! p with
  | Some bytes => negb (decodes E bytes)
  | None => true
  end.

(** The path [_backup_dir] returns; the method also makes the directory,
    which is [mkdir (backup_dir f)] where it is called. *)
Definition backup_dir (f : string) : string := f // BACKUP_DIRNAME.

(** [_clear_backup_dir]: [iterdir] yields the entries directly inside the
    backup directory; each is unlinked, failures being swallowed (a
    directory among them is one such failure). *)
Definition clear_backup_dir (w : World) (a : App) : World :=
  match folder a with
  | None => w
  | Some f =>
      let d := backup_dir f in
      let w := mkdir d w in
      set_fs
        (foldl (λ m p, if decide (Paths.parent p = d) then try_unlink E p m
                       else m)
           (fs w) (map fst (map_to_list (fs w))))
        w
  end.

Definition commit_pending_delete (w : World) (a : App) : World * App :=
  match last_action a with
  | None => (w, a)
  | Some act =>
      let w' :=
        match act with
        | Delete _ bp =>
            if decide (bp = "") then w
            else set_fs (try_unlink E bp (fs w)) w
        | Keep _ => w
        end in
      (w', set_last_action None a)
  end.

Definition current_path (a : App) : option string :=
  match folder a with
  | None => None
  | Some f =>
      match files_order a with
      | [] => None
      | _ :: _ =>
          if decide (0 <= index a < len a)%Z
          then Paths.join f <$> files_order a !! Z.to_nat (index a)
          else None
      end
  end.

(** The name under which [request_delete] stages the entry [rel]. *)
Definition backup_target (m : FS) (ds : gset string) (f rel : string)
  : string :=
  unique_name m ds (backup_dir f) (Paths.name rel).

(** Where [undo_last] puts a staged file back:
    [dest = self.folder / orig_rel], or a free neighbour when taken. *)
Definition restore_dest (m : FS) (ds : gset string) (f orig_rel : string)
  : string :=
  let dest := f // orig_rel in
  if path_exists m ds dest
  then unique_name m ds (Paths.parent dest) (Paths.name dest)
  else dest.

(** The two last statements of [show_current]: [set_image] and the
    status bar message. *)
Definition display (p : string) (w : World) (a : App) : World :=
  say (StatusPosition (Paths.name p) (index a + 1) (len a))
    (say (SetImage p) w).

(** The tail of the unreadable branch of [show_current] and of
    [request_delete]: [if self.index >= len(...): self.index = len(...)]. *)
Definition clamp_top (a : App) : App :=
  if decide (len a <= index a)%Z then set_index (len a) a else a.

(** [reshuffle_and_restart], [show] being [show_current]. *)
Definition reshuffle_and_restart (show : World → App → World * App)
    (w : World) (a : App) : World * App :=
  match folder a with
  | None => (w, a)
  | Some f =>
      let files := scan_images_recursive f (fs w) in
      let files := random_shuffle E (Z.lxor (path_hash E f) (now w)) files in
      let a' := set_finished_dialog_shown false
                  (set_index 0 (set_files_order files a)) in
      show (clear_backup_dir w a') a'
  end.

(** [on_finished_list] once the dialog returned [clicked]. *)
Definition on_finished_list (show : World → App → World * App)
    (clicked : Button) (w : World) (a : App) : World * App :=
  let w := say (FinishDialog clicked) w in
  match clicked with
  | BtnShuffle =>
      let '(w, a) := commit_pending_delete w a in
      reshuffle_and_restart show w a
  | BtnExit =>
      let '(w, a) := commit_pending_delete w a in
      (say WindowClosed w, a)
  | BtnOther => show w (set_finished_dialog_shown false a)
  end.

(** [show_current] as long as it only meets entries Qt cannot load: each is
    popped and the method calls itself.  [fuel] is the number of these
    nested calls the interpreter still allows: with none left the call
    raises [RecursionError], which no caller catches and which every caller
    meets at its last statement, so that the session stays as the pop left
    it.  [finish] is what the method does at the end of the list with the
    dialog not yet shown. *)
Fixpoint show_loop (finish : World → App → World * App) (fuel : nat)
    (w : World) (a : App) : World * App :=
  match current_path a with
  | None =>
      if finished_dialog_shown a then (w, a)
      else finish w (set_finished_dialog_shown true a)
  | Some p =>
      if pix_is_null (fs w) p then
        let a' := clamp_top
                    (set_files_order (list_pop (index a) (files_order a)) a) in
        match fuel with
        | O => (w, a')
        | S fuel' => show_loop finish fuel' w a'
        end
      else (display p w a, a)
  end.

(** [show_current], by recursion on the answers still to come: every finish
    dialog takes one. *)
Fixpoint show_current_with (bs : list Button) (w : World) (a : App)
    {struct bs} : World * App :=
  show_loop
    (λ w1 a1,
       match bs with
       | [] => on_finished_list (λ w2 a2, (w2, a2)) BtnExit w1 a1
       | b :: bs' =>
           on_finished_list (show_current_with bs') b (set_answers bs' w1) a1
       end)
    (recursion_room E) w a.

(** What [show_current] does at the end of the list, the dialog not yet
    shown, when [bs] are the answers still to come. *)
Definition finish_with (bs : list Button) (w : World) (a : App)
  : World * App :=
  match bs with
  | [] => on_finished_list (λ w2 a2, (w2, a2)) BtnExit w a
  | b :: bs' =>
      on_finished_list (show_current_with bs') b (set_answers bs' w) a
  end.

Definition show_current (w : World) (a : App) : World * App :=
  show_current_with (answers w) w a.

(** [_advance] *)
Definition advance (step : Z) (w : World) (a : App) : World * App :=
  let i := (index a + step)%Z in
  let i := if decide (len a <= i)%Z then len a
           else if decide (i < 0)%Z then 0%Z else i in
  show_current w (set_index i a).

Definition load_folder (f : string) (w : World) (a : App) : World * App :=
  let a := set_folder (Some f) a in
  let w := say (StatusMessage ("Carregando pasta: " +:+ f)) w in
  match scan_images_recursive f (fs w) with
  | [] => (say (Information "Vazio") w, a)
  | (_ :: _) as files =>
      let files := random_shuffle E (Z.lxor (path_hash E f) (now w)) files in
      let a := set_finished_dialog_shown false
                 (set_last_action None
                    (set_index 0 (set_files_order files a))) in
      show_current (clear_backup_dir w a) a
  end.

Definition request_keep (w : World) (a : App) : World * App :=
  let '(w, a) := commit_pending_delete w a in
  match current_path a with
  | None => (w, a)
  | Some _ =>
      advance 1 w (set_last_action (Some (Keep (index a))) a)
  end.

(** [request_delete] up to its last statement, the call of [show_current].
    The flag tells whether that statement is reached: it is not when there
    is nothing to delete or when staging failed. *)
Definition request_delete_step (w : World) (a : App)
  : World * App * bool :=
  let '(w, a) := commit_pending_delete w a in
  match current_path a, folder a with
  | Some p, Some f =>
      let rel := default "" (files_order a !! Z.to_nat (index a)) in
      let w := mkdir (backup_dir f) w in
      let target := backup_target (fs w) (dirs w) f rel in
      let w := mkdir_parents (Paths.parent target) w in
      match fs_move E p target (fs w) with
      | None =>
          (say (Critical "Falha ao deletar")
             (set_fs (fs_move_failed E p target (fs w)) w), a, false)
      | Some m =>
          let a := set_files_order (list_pop (index a) (files_order a)) a in
          let a := set_last_action (Some (Delete rel target)) a in
          (moved p m w, clamp_top a, true)
      end
  | _, _ => (w, a, false)
  end.

Definition request_delete (w : World) (a : App) : World * App :=
  let '(w, a, staged) := request_delete_step w a in
  if staged then show_current w a else (w, a).

(** [undo_last].  A key the dict could lack is never missing from the two
    shapes of [Action], so the [.get] defaults and the closing
    message for an unknown action have no counterpart. *)
Definition undo_last (w : World) (a : App) : World * App :=
  match last_action a with
  | None => (say (StatusMessage "Nada para desfazer") w, a)
  | Some action =>
      let a := set_last_action None a in
      match action with
      | Keep _ =>
          let a := if decide (0 < index a)%Z
                   then set_index (index a - 1) a else a in
          show_current w a
      | Delete orig_rel backup_path =>
          if negb (path_exists (fs w) (dirs w) backup_path) then
            (say (StatusMessage "Nada para restaurar") w, a)
          else
            match folder a with
            | None => (w, a)
            | Some f =>
                let w := mkdir_parents (Paths.parent (f // orig_rel)) w in
                let dest := restore_dest (fs w) (dirs w) f orig_rel in
                match fs_move E backup_path dest (fs w) with
                | None =>
                    (say (Critical "Undo falhou")
                       (set_fs (fs_move_failed E backup_path dest (fs w)) w),
                     a)
                | Some m =>
                    let w := moved backup_path m w in
                    let insert_pos := Z.max (Z.min (index a) (len a)) 0 in
                    match Paths.relative_to dest f with
                    | None => (w, a)
                    | Some rel =>
                        let a :=
                          set_files_order
                            (list_insert_at insert_pos rel (files_order a)) a in
                        show_current w (set_index insert_pos a)
                    end
                end
            end
      end
  end.

End Window.

(** ** Sequences of operator actions *)

Inductive Op := OpLoad (f : string) | OpKeep | OpDelete | OpUndo.

Definition run_op (E : Env) (o : Op) (s : World * App) : World * App :=
  match o with
  | OpLoad f => load_folder E f s.1 s.2
  | OpKeep => request_keep E s.1 s.2
  | OpDelete => request_delete E s.1 s.2
  | OpUndo => undo_last E s.1 s.2
  end.

Definition run (E : Env) (ops : list Op) (s : World * App) : World * App :=
  foldl (λ s o, run_op E o s) s ops.

(** ** Predicates on sessions *)

(** The cursor points at an entry or just past the last one. *)
Definition cursor_inv (a : App) : Prop := (0 <= index a <= len a)%Z.

(** A pending keep was recorded one position before the cursor. *)
Definition keep_inv (a : App) : Prop :=
  ∀ prev, last_action a = Some (Keep prev) →
          (0 <= prev)%Z ∧ index a = (prev + 1)%Z.

(** As long as no folder is open the order is empty. *)
Definition folder_inv (a : App) : Prop :=
  folder a = None → files_order a = [].

(** There is a current entry and Qt loads it. *)
Definition shows (E : Env) (m : FS) (a : App) : bool :=
  match current_path a with
  | Some p => negb (pix_is_null E m p)
  | None => false
  end.

(** [show_current] has come to an end: an image is on display, or the list
    is exhausted and the finish dialog has been shown. *)
Definition at_rest (E : Env) (m : FS) (a : App) : bool :=
  match current_path a with
  | Some p => negb (pix_is_null E m p)
  | None => finished_dialog_shown a
  end.

(** ** Statements of the specification

    Each renders a sentence of the specification as a proposition on the
    model.  Where the code does not meet it, a counterexample below refutes
    it on a session the window really reaches. *)

Module Claimed.

(** "If the restore fails, [pendingAction] is left intact ... a failed
    filesystem step leaves in-memory state exactly as it was before the
    call." *)
Definition undo_failure_keeps_state (E : Env) (w : World) (a : App) : Prop :=
  ∀ orig bp f bytes,
    last_action a = Some (Delete orig bp) → folder a = Some f →
    fs w !! bp = Some bytes →
    mv_ok E bp (restore_dest (fs w) (dirs w) f orig) = false →
    (undo_last E w a).2 = a.

(** "[order] shrinks by one and [cursor] now points at the next item
    without incrementing; set [pendingAction := Delete{entry, stagingPath}]"
    as the outcome of a [delete()] whose staging succeeds. *)
Definition delete_outcome (E : Env) (w : World) (a : App) : Prop :=
  ∀ p f rel m,
    current_path a = Some p → folder a = Some f →
    files_order a !! Z.to_nat (index a) = Some rel →
    let wc := (commit_pending_delete E w a).1 in
    fs_move E p (backup_target (fs wc) (dirs wc) f rel) (fs wc) = Some m →
    let a' := (request_delete E w a).2 in
    files_order a' = delete (Z.to_nat (index a)) (files_order a)
    ∧ index a' = index a
    ∧ last_action a'
      = Some (Delete rel (backup_target (fs wc) (dirs wc) f rel)).

(** "[delete()] immediately followed by [undo()] restores the file to its
    original relative path and restores [order]/[cursor] to be element-wise
    equal to their pre-delete state", both calls succeeding and the
    original path being free when [undo()] runs. *)
Definition delete_undo_roundtrip (E : Env) (w : World) (a : App) : Prop :=
  ∀ p f rel bytes m orig bp m',
    current_path a = Some p → folder a = Some f →
    files_order a !! Z.to_nat (index a) = Some rel →
    fs w !! p = Some bytes →
    let wc := (commit_pending_delete E w a).1 in
    fs_move E p (backup_target (fs wc) (dirs wc) f rel) (fs wc) = Some m →
    let s1 := request_delete E w a in
    last_action s1.2 = Some (Delete orig bp) →
    path_exists (fs s1.1) (dirs s1.1) (f // orig) = false →
    fs_move E bp (restore_dest (fs s1.1) (dirs s1.1) f orig) (fs s1.1)
    = Some m' →
    let s2 := undo_last E s1.1 s1.2 in
    fs s2.1 !! p = Some bytes
    ∧ files_order s2.2 = files_order a
    ∧ index s2.2 = index a.

(** "If [Keep]: sets [cursor := priorCursor] (moves back by exactly one
    position; never below 0), clears [pendingAction]." *)
Definition undo_keep_outcome (E : Env) (w : World) (a : App) : Prop :=
  ∀ prev,
    last_action a = Some (Keep prev) →
    let a' := (undo_last E w a).2 in
    index a' = prev ∧ index a' = (index a - 1)%Z ∧ (0 <= index a')%Z
    ∧ last_action a' = None.

(** The disambiguated name the specification words: [name__n.ext]. *)
Definition suffixed_name (stem suf : string) (n : nat) : string :=
  stem +:+ "__" +:+ pretty n +:+ suf.

(** "if a name collision exists, appends a disambiguating suffix
    ([name__n.ext], trying increasing [n]) until a free name is found" *)
Definition collision_name (m : FS) (ds : gset string) (d b : string)
  : Prop :=
  path_exists m ds (d // b) = true →
  ∃ n, unique_name m ds d b
       = d // suffixed_name (Paths.splitext b).1 (Paths.splitext b).2 n.

End Claimed.

(** ** Concrete sessions *)

Module Sessions.

(** Everything is permitted; the bytes ["bad"] do not decode; the shuffle
    keeps the order of the scan; the interpreter allows 900 nested calls. *)
Definition E_ok : Env :=
  {| decodes := λ bytes, negb (bool_decide (bytes = "bad"));
     mv_ok := λ _ _, true;
     mv_left := λ _ _ _, None;
     rm_ok := λ _, true;
     path_hash := λ _, 0%Z;
     random_shuffle := λ _ l, l;
     recursion_room := 900 |}.

(** As [E_ok], but nothing can be moved out of the backup directory of
    [r]: the move copies the file and then fails to unlink the source. *)
Definition E_no_restore : Env :=
  {| decodes := decodes E_ok;
     mv_ok := λ src _, negb (Paths.is_under (backup_dir "r") src);
     mv_left := λ _ _ bytes, Some bytes;
     rm_ok := rm_ok E_ok;
     path_hash := path_hash E_ok;
     random_shuffle := random_shuffle E_ok;
     recursion_room := recursion_room E_ok |}.

(** As [E_ok], but nothing can be moved at all: every move copies the file
    and then fails to unlink the source. *)
Definition E_no_move : Env :=
  {| decodes := decodes E_ok;
     mv_ok := λ _ _, false;
     mv_left := λ _ _ bytes, Some bytes;
     rm_ok := rm_ok E_ok;
     path_hash := path_hash E_ok;
     random_shuffle := random_shuffle E_ok;
     recursion_room := recursion_room E_ok |}.

(** As [E_ok], but the interpreter allows two nested calls only. *)
Definition E_shallow : Env :=
  {| decodes := decodes E_ok;
     mv_ok := mv_ok E_ok;
     mv_left := mv_left E_ok;
     rm_ok := rm_ok E_ok;
     path_hash := path_hash E_ok;
     random_shuffle := random_shuffle E_ok;
     recursion_room := 2 |}.

(** Four folders: [r] with three images of which [a.jpg] is corrupt, [s]
    with a single image, [t] with three sound images, [q] with none. *)
Definition disk : FS :=
  list_to_map
    [("r/a.jpg", "bad"); ("r/b.jpg", "B"); ("r/c.png", "C");
     ("r/notes.txt", "N");
     ("s/only.jpg", "O");
     ("t/1.jpg", "1"); ("t/2.jpg", "2"); ("t/3.jpg", "3");
     ("q/readme.txt", "R")].

(** The directories of [disk]. *)
Definition disk_dirs : gset string := list_to_set ["r"; "s"; "t"; "q"].

Definition world0 (bs : list Button) : World :=
  {| fs := disk; dirs := disk_dirs; now := 1762214400; answers := bs;
     ui := [] |}.

(** A backup directory that already holds [a.jpg]. *)
Definition taken : FS :=
  list_to_map [("bk/a.jpg", "x")].

Definition taken_twice : FS :=
  list_to_map [("bk/a.jpg", "x"); ("bk/a__pswipe_1.jpg", "y")].

(** The directory [bk] alone, and with a directory that bears the first
    candidate name. *)
Definition bk_only : gset string := {["bk"]}.

Definition bk_with_dir : gset string := list_to_set ["bk"; "bk/a__pswipe_1.jpg"].

(** [t] opened, nothing can be moved. *)
Definition loaded_no_move : World * App :=
  run E_no_move [OpLoad "t"] (world0 [], init).

(** [r] opened and its first image deleted; the staged file cannot be
    moved back. *)
Definition staged_no_restore : World * App :=
  run E_no_restore [OpLoad "r"; OpDelete] (world0 [], init).

(** [r] opened: [c.png] is on display, the corrupt [a.jpg] comes next. *)
Definition loaded_r : World * App :=
  run E_ok [OpLoad "r"] (world0 [], init).

(** [t] opened: three sound images. *)
Definition loaded_t : World * App :=
  run E_ok [OpLoad "t"] (world0 [BtnShuffle], init).

(** [t] opened and two images kept. *)
Definition kept_twice : World * App :=
  run E_ok [OpLoad "t"; OpKeep; OpKeep] (world0 [BtnShuffle], init).

(** The same, no answer to a finish dialog being queued. *)
Definition kept_twice_quiet : World * App :=
  run E_ok [OpLoad "t"; OpKeep; OpKeep] (world0 [], init).

(** ... and then the folder [q], which holds no image, opened. *)
Definition kept_twice_then_q : World * App :=
  run E_ok [OpLoad "t"; OpKeep; OpKeep; OpLoad "q"]
    (world0 [BtnShuffle], init).

(** [t] opened and its first image deleted. *)
Definition staged_t : World * App :=
  run E_ok [OpLoad "t"; OpDelete] (world0 [BtnShuffle], init).

(** The disk once [t/3.jpg] is staged. *)
Definition disk_staged_t : FS :=
  <["t/.pswipe_last_backup/3.jpg" := "3"]> (delete "t/3.jpg" disk).

(** The disk once [r/c.png] is staged. *)
Definition disk_staged_r : FS :=
  <["r/.pswipe_last_backup/c.png" := "C"]> (delete "r/c.png" disk).

(** [s] opened: its only image is on display. *)
Definition loaded_s : World * App :=
  run E_ok [OpLoad "s"] (world0 [], init).

End Sessions.

(** ** The image view: the fields and mouse handlers of [ImageView] *)

(** [_pix] is kept by the path the pixmap was loaded from, [_drag_start]
    by the x coordinate of the point, the only part that is read. *)
Record ImageView := {
  pix : option string;
  dragging : bool;
  drag_start : option Z;
  offset_x : Z;
  overlay_text : option string;
  image_token : Z;
  press_token : option Z
}.

(** The view as [ImageView.__init__] leaves it. *)
Definition view_init : ImageView :=
  {| pix := None; dragging := false; drag_start := None; offset_x := 0;
     overlay_text := None; image_token := 0; press_token := None |}.

(** What a released drag asks of the window. *)
Inductive Swipe := SwipeDelete | SwipeKeep.

Definition set_image (p : string) (v : ImageView) : ImageView :=
  {| pix := Some p; dragging := dragging v; drag_start := drag_start v;
     offset_x := 0; overlay_text := None;
     image_token := image_token v + 1; press_token := press_token v |}.

(** [left] tells whether [e.button() == Qt.LeftButton]. *)
Definition mousePressEvent (left : bool) (x : Z) (v : ImageView)
  : ImageView :=
  if left then
    {| pix := pix v; dragging := true; drag_start := Some x;
       offset_x := offset_x v; overlay_text := None;
       image_token := image_token v;
       press_token := Some (image_token v) |}
  else v.

Definition mouseMoveEvent (x : Z) (v : ImageView) : ImageView :=
  match dragging v, drag_start v with
  | true, Some x0 =>
      let dx := (x - x0)%Z in
      {| pix := pix v; dragging := dragging v; drag_start := drag_start v;
         offset_x := dx;
         overlay_text :=
           Some (if decide (0 < dx)%Z then "MANTER" else "DELETAR");
         image_token := image_token v; press_token := press_token v |}
  | _, _ => v
  end.

(** The window the view sits in has both [request_delete] and
    [request_keep], so the two [hasattr] tests hold. *)
Definition mouseReleaseEvent (x : Z) (v : ImageView)
  : ImageView * option Swipe :=
  match dragging v, drag_start v with
  | true, Some x0 =>
      let dx := (x - x0)%Z in
      let threshold := 120%Z in
      let v' :=
        {| pix := pix v; dragging := false; drag_start := None;
           offset_x := 0; overlay_text := None;
           image_token := image_token v; press_token := press_token v |} in
      if decide (press_token v = Some (image_token v)) then
        if decide (dx <= - threshold)%Z then (v', Some SwipeDelete)
        else if decide (threshold <= dx)%Z then (v', Some SwipeKeep)
        else (v', None)
      else (v', None)
  | _, _ => (v, None)
  end.

(** What reaches the view between a press and a release. *)
Inductive ViewEvent :=
| EvPress (left : bool) (x : Z)
| EvMove (x : Z)
| EvSetImage (p : string).

Definition view_step (v : ImageView) (e : ViewEvent) : ImageView :=
  match e with
  | EvPress b x => mousePressEvent b x v
  | EvMove x => mouseMoveEvent x v
  | EvSetImage p => set_image p v
  end.

Definition view_run (evs : list ViewEvent) (v : ImageView) : ImageView :=
  foldl view_step v evs.

Definition is_set_image (e : ViewEvent) : bool :=
  match e with EvSetImage _ => true | _ => false end.

Definition is_press (e : ViewEvent) : bool :=
  match e with EvPress _ _ => true | _ => false end.

(** The method the window runs for a swipe. *)
Definition swipe_op (s : Swipe) : Op :=
  match s with SwipeDelete => OpDelete | SwipeKeep => OpKeep end.

(** * Properties *)

(** Closes an equation between closed terms by evaluating its left-hand
    side on the virtual machine. *)
Ltac by_vm :=
  lazymatch goal with
  | |- ?x = ?y => exact (@eq_refl _ y <: x = y)
  end.

(** ** Strings *)

Lemma string_app_cons (c : ascii) (s t : string) :
  String c s +:+ t = String c (s +:+ t).
Proof. reflexivity. Qed.

Lemma string_length_app (s t : string) :
  String.length (s +:+ t) = String.length s + String.length t.
Proof.
  induction s as [|c s IH]; [done|].
  rewrite string_app_cons. simpl. by rewrite IH.
Qed.

Lemma string_app_inj_r (t s1 s2 : string) : s1 +:+ t = s2 +:+ t → s1 = s2.
Proof.
  revert s2. induction s1 as [|c s1 IH]; intros [|c' s2] H.
  - done.
  - apply (f_equal String.length) in H.
    rewrite !string_length_app in H. simpl in H. lia.
  - apply (f_equal String.length) in H.
    rewrite !string_length_app in H. simpl in H. lia.
  - rewrite !string_app_cons in H. injection H as -> H.
    f_equal. by apply IH.
Qed.

Lemma join_inj (d x y : string) : d // x = d // y → x = y.
Proof.
  unfold Paths.join. intros H.
  apply (inj (String.append d)) in H.
  by apply (inj (String.append "/")) in H.
Qed.

Lemma pswipe_name_inj (stem suf : string) (i j : nat) :
  pswipe_name stem suf i = pswipe_name stem suf j → i = j.
Proof.
  unfold pswipe_name. intros H.
  apply (inj (String.append stem)) in H.
  apply (inj (String.append "__pswipe_")) in H.
  apply string_app_inj_r in H.
  by apply (inj pretty) in H.
Qed.

Lemma strip_prefix_app (pre s : string) :
  Paths.strip_prefix pre (pre +:+ s) = Some s.
Proof.
  induction pre as [|c pre IH]; [by destruct s|].
  rewrite string_app_cons. simpl. by rewrite decide_True.
Qed.

Lemma string_app_assoc (s t u : string) : (s +:+ t) +:+ u = s +:+ t +:+ u.
Proof.
  induction s as [|c s IH]; [done|].
  rewrite !string_app_cons. by rewrite IH.
Qed.

(** [(f / rel).relative_to(f)] is [rel]. *)
Lemma relative_to_join (f rel : string) :
  Paths.relative_to (f // rel) f = Some rel.
Proof.
  unfold Paths.relative_to, Paths.join.
  rewrite <- string_app_assoc. apply strip_prefix_app.
Qed.

(** ** Paths *)

Lemma join_length (d n : string) :
  String.length (d // n) = S (String.length d + String.length n).
Proof.
  unfold Paths.join. rewrite !string_length_app. simpl. lia.
Qed.

Lemma join_assoc (f d n : string) : (f // d) // n = f // (d // n).
Proof. unfold Paths.join. by rewrite !string_app_assoc. Qed.

(** A path splits into its parent and its name. *)
Lemma rsplit_Some (p d n : string) :
  Paths.rsplit p = Some (d, n) → p = d // n.
Proof.
  revert d. induction p as [|c p IH]; intros d H; simpl in H; [done|].
  destruct (Paths.rsplit p) as [[d' n']|].
  - injection H as <- <-. unfold Paths.join. rewrite string_app_cons.
    f_equal. by apply IH.
  - case_decide as Hc; [|done]. injection H as <- <-. by subst c.
Qed.

Lemma rsplit_join (d r : string) :
  Paths.rsplit (d // r)
  = match Paths.rsplit r with
    | Some (d', n) => Some (d // d', n)
    | None => Some (d, r)
    end.
Proof.
  unfold Paths.join. induction d as [|c d IH].
  - change ("" +:+ "/" +:+ r) with (String "/" r). simpl.
    by destruct (Paths.rsplit r) as [[d' n]|].
  - rewrite string_app_cons. simpl Paths.rsplit. rewrite IH.
    by destruct (Paths.rsplit r) as [[d' n]|].
Qed.

(** A path below a directory: the directory joined with its parent below
    it and its name. *)
Lemma parent_name_join (f r : string) :
  Paths.parent (f // r) // Paths.name (f // r) = f // r.
Proof.
  unfold Paths.parent, Paths.name.
  pose proof (rsplit_join f r) as H.
  destruct (Paths.rsplit (f // r)) as [[d n]|] eqn:Hs.
  - symmetry. by apply rsplit_Some.
  - by destruct (Paths.rsplit r) as [[d' n']|].
Qed.

(** A name without a separator lies directly in the directory it is joined
    to. *)
Lemma parent_join (d n : string) :
  Paths.rsplit n = None → Paths.parent (d // n) = d.
Proof. intros Hn. unfold Paths.parent. by rewrite rsplit_join, Hn. Qed.

(** The ancestors of a path are shorter than the path. *)
Lemma parents_from_length (fuel : nat) (p x : string) :
  x ∈ Paths.parents_from fuel p → (String.length x < String.length p)%nat.
Proof.
  revert p. induction fuel as [|fuel IH]; intros p Hx; simpl in Hx.
  - by apply elem_of_nil in Hx.
  - destruct (Paths.rsplit p) as [[d n]|] eqn:Hs;
      [|by apply elem_of_nil in Hx].
    apply rsplit_Some in Hs as ->. rewrite join_length.
    apply elem_of_cons in Hx as [->|Hx]; [lia|].
    apply IH in Hx. lia.
Qed.

(** So no path directly in [d] is [d] or one of its ancestors. *)
Lemma join_not_parent (d n : string) :
  d // n ∉ (list_to_set (d :: Paths.parents d) : gset string).
Proof.
  intros Hin. apply elem_of_list_to_set, elem_of_cons in Hin as [Heq|Hin].
  - apply (f_equal String.length) in Heq. rewrite join_length in Heq. lia.
  - apply parents_from_length in Hin. rewrite join_length in Hin. lia.
Qed.

(** A decimal numeral starts with a digit, so not with the letter [p]. *)
Lemma pretty_N_go_head (x : N) (s : string) :
  (0 < x)%N →
  ∃ c r, pretty_N_go x s = String c r ∧ c ≠ "p"%char.
Proof.
  revert s. induction (N.lt_wf_0 x) as [x _ IH]; intros s Hx.
  rewrite pretty_N_go_step by done.
  destruct (decide (x `div` 10 = 0)%N) as [Hz|Hz].
  - rewrite Hz, pretty_N_go_0. eexists _, _. split; [done|].
    unfold pretty_N_char. by repeat case_match.
  - apply IH; [apply N.div_lt; lia | by apply N.neq_0_lt_0].
Qed.

Lemma pretty_nat_head (n : nat) (t : string) :
  ∃ c r, pretty n +:+ t = String c r ∧ c ≠ "p"%char.
Proof.
  unfold pretty, pretty_nat, pretty, pretty_N.
  case_decide as Hn.
  - rewrite string_app_cons. by eexists _, _.
  - destruct (pretty_N_go_head (N.of_nat n) "") as (c & r & -> & Hc); [lia|].
    rewrite string_app_cons. by eexists _, _.
Qed.

(** ** [unique_name] *)

Lemma path_exists_false (m : FS) (ds : gset string) (p : string) :
  path_exists m ds p = false ↔ m !! p = None ∧ p ∉ ds.
Proof.
  unfold path_exists. rewrite bool_decide_eq_false, eq_None_not_Some. tauto.
Qed.

Lemma path_exists_true (m : FS) (ds : gset string) (p : string) :
  path_exists m ds p = true ↔ is_Some (m !! p) ∨ p ∈ ds.
Proof. unfold path_exists. by rewrite bool_decide_eq_true. Qed.

(** Pigeonhole: [k] candidates that all exist are [k] distinct files or
    directories. *)
Lemma candidates_bounded
    (m : FS) (ds : gset string) (d stem suf : string) (i k : nat) :
  (∀ j, (i ≤ j < i + k)%nat →
        path_exists m ds (d // pswipe_name stem suf j) = true) →
  (k ≤ size m + size ds)%nat.
Proof.
  intros Hall.
  set (cands := (λ j, d // pswipe_name stem suf j) <$> seq i k).
  assert (NoDup cands) as Hnd.
  { apply NoDup_fmap_2_strong; [|apply NoDup_seq].
    intros x y _ _ Hxy. eapply pswipe_name_inj, join_inj, Hxy. }
  assert (list_to_set cands ⊆ dom m ∪ ds) as Hsub.
  { intros p Hp. apply elem_of_list_to_set, list_elem_of_fmap in Hp
      as (j & -> & Hj).
    apply elem_of_seq in Hj. specialize (Hall j Hj).
    apply path_exists_true in Hall as [Hfile|Hdir].
    - apply elem_of_union_l. by apply elem_of_dom.
    - by apply elem_of_union_r. }
  apply subseteq_size in Hsub.
  rewrite size_list_to_set in Hsub by done.
  unfold cands in Hsub. rewrite length_fmap, length_seq in Hsub.
  rewrite size_union_alt, size_dom in Hsub.
  pose proof (subseteq_size (ds ∖ dom m) ds) as Hle.
  assert (ds ∖ dom m ⊆ ds) as Hdiff
    by (intros x Hx; by apply elem_of_difference in Hx as [? _]).
  specialize (Hle Hdiff). lia.
Qed.

(** The loop returns the first free candidate at or after [i], as soon as
    one lies within reach of the fuel. *)
Lemma unique_name_from_first (m : FS) (ds : gset string) (d stem suf : string) :
  ∀ fuel i j,
    (i ≤ j ≤ i + fuel)%nat →
    path_exists m ds (d // pswipe_name stem suf j) = false →
    ∃ n, (i ≤ n ≤ j)%nat
         ∧ unique_name_from fuel m ds d stem suf i
           = d // pswipe_name stem suf n
         ∧ path_exists m ds (d // pswipe_name stem suf n) = false
         ∧ ∀ k, (i ≤ k < n)%nat →
                path_exists m ds (d // pswipe_name stem suf k) = true.
Proof.
  induction fuel as [|fuel IH]; intros i j Hij Hfree; simpl.
  - assert (j = i) as -> by lia. rewrite Hfree. simpl.
    exists i. split; [lia|]. split; [done|]. split; [done|]. intros; lia.
  - destruct (path_exists m ds (d // pswipe_name stem suf i)) eqn:Hi; simpl.
    + assert (j ≠ i) by (intros ->; congruence).
      destruct (IH (S i) j) as (n & Hn & Heq & Hfr & Hbelow); [lia|done|].
      exists n. split; [lia|]. split; [done|]. split; [done|].
      intros k Hk. destruct (decide (k = i)) as [->|]; [done|].
      apply Hbelow. lia.
    + exists i. split; [lia|]. split; [done|]. split; [done|]. intros; lia.
Qed.

(** Within [size m + size ds + 1] candidates one is free. *)
Lemma some_candidate_free
    (m : FS) (ds : gset string) (d stem suf : string) (i : nat) :
  ∃ j, (i ≤ j ≤ i + (size m + size ds))%nat
       ∧ path_exists m ds (d // pswipe_name stem suf j) = false.
Proof.
  destruct (decide (Exists (λ j,
      path_exists m ds (d // pswipe_name stem suf j) = false)
      (seq i (S (size m + size ds))))) as [Hex|Hnone].
  - apply Exists_exists in Hex as (j & Hj & Hfree).
    apply elem_of_seq in Hj. exists j. split; [lia|done].
  - exfalso. assert (S (size m + size ds) ≤ size m + size ds)%nat; [|lia].
    apply (candidates_bounded m ds d stem suf i). intros j Hj.
    destruct (path_exists m ds (d // pswipe_name stem suf j)) eqn:Hp;
      [done|].
    destruct Hnone. apply Exists_exists. exists j. split; [|done].
    apply elem_of_seq. lia.
Qed.

(** On a collision [unique_name] returns the first candidate that nothing
    bears. *)
Lemma unique_name_first_free
    (m : FS) (ds : gset string) (d b : string) :
  path_exists m ds (d // b) = true →
  ∃ n, (1 ≤ n)%nat
       ∧ unique_name m ds d b
         = d // pswipe_name (Paths.splitext b).1 (Paths.splitext b).2 n
       ∧ path_exists m ds
           (d // pswipe_name (Paths.splitext b).1 (Paths.splitext b).2 n)
         = false
       ∧ ∀ k, (1 ≤ k < n)%nat →
              path_exists m ds
                (d // pswipe_name (Paths.splitext b).1 (Paths.splitext b).2 k)
              = true.
Proof.
  intros Hb. unfold unique_name. rewrite Hb. simpl.
  destruct (Paths.splitext b) as [stem suf]. simpl.
  destruct (some_candidate_free m ds d stem suf 1) as (j & Hj & Hfree).
  destruct (unique_name_from_first m ds d stem suf (size m + size ds) 1 j
              Hj Hfree) as (n & Hn & Heq & Hnfree & Hbelow).
  exists n. split; [lia|done].
Qed.

(** [unique_name] always returns: the name it gives is free. *)
Lemma unique_name_free (m : FS) (ds : gset string) (d b : string) :
  path_exists m ds (unique_name m ds d b) = false.
Proof.
  destruct (path_exists m ds (d // b)) eqn:Hb.
  - destruct (unique_name_first_free m ds d b Hb) as (n & _ & -> & H & _).
    done.
  - unfold unique_name. by rewrite Hb.
Qed.

(** Without a collision the base name is kept. *)
Lemma unique_name_no_collision (m : FS) (ds : gset string) (d b : string) :
  path_exists m ds (d // b) = false → unique_name m ds d b = d // b.
Proof. intros H. unfold unique_name. by rewrite H. Qed.

(** The name depends on what exists among the candidates only. *)
Lemma unique_name_ext
    (m m' : FS) (ds ds' : gset string) (d b : string) :
  (∀ n, path_exists m' ds' (d // n) = path_exists m ds (d // n)) →
  unique_name m' ds' d b = unique_name m ds d b.
Proof.
  intros Hsame.
  destruct (path_exists m ds (d // b)) eqn:Hb.
  - pose proof Hb as Hb'. rewrite <- Hsame in Hb'.
    destruct (unique_name_first_free m ds d b Hb)
      as (n & Hn & -> & Hfree & Hbelow).
    destruct (unique_name_first_free m' ds' d b Hb')
      as (n' & Hn' & -> & Hfree' & Hbelow').
    rewrite Hsame in Hfree'.
    destruct (lt_eq_lt_dec n n') as [[Hlt| ->]|Hlt]; [|done|].
    + specialize (Hbelow' n). rewrite Hsame in Hbelow'.
      rewrite Hbelow' in Hfree by lia. done.
    + rewrite Hbelow in Hfree' by lia. done.
  - rewrite !unique_name_no_collision; [done|done|by rewrite Hsame].
Qed.

(** C8, as amended.  When the base name collides with a name present in
    the directory, be it that of a file or of a directory, the chosen name
    is [stem__pswipe_n.ext], where [stem] and [.ext] split the base name and
    [n] is the first of 1, 2, ... for which nothing in the directory bears
    that name. *)
Theorem unique_name_collision (m : FS) (ds : gset string) (d b : string) :
  path_exists m ds (d // b) = true →
  ∃ n, (1 ≤ n)%nat
       ∧ unique_name m ds d b
         = d // pswipe_name (Paths.splitext b).1 (Paths.splitext b).2 n
       ∧ path_exists m ds (unique_name m ds d b) = false
       ∧ ∀ k, (1 ≤ k < n)%nat →
              path_exists m ds
                (d // pswipe_name (Paths.splitext b).1 (Paths.splitext b).2 k)
              = true.
Proof.
  intros Hb.
  destruct (unique_name_first_free m ds d b Hb)
    as (n & Hn & Heq & Hfree & Hbelow).
  exists n. rewrite Heq. by split_and!.
Qed.

Lemma unique_name_collision_witness :
  path_exists Sessions.taken Sessions.bk_with_dir ("bk" // "a.jpg") = true
  ∧ ∃ n, (1 ≤ n)%nat
       ∧ unique_name Sessions.taken Sessions.bk_with_dir "bk" "a.jpg"
         = "bk" // pswipe_name (Paths.splitext "a.jpg").1
                     (Paths.splitext "a.jpg").2 n
       ∧ path_exists Sessions.taken Sessions.bk_with_dir
           (unique_name Sessions.taken Sessions.bk_with_dir "bk" "a.jpg")
         = false
       ∧ ∀ k, (1 ≤ k < n)%nat →
              path_exists Sessions.taken Sessions.bk_with_dir
                ("bk" // pswipe_name (Paths.splitext "a.jpg").1
                           (Paths.splitext "a.jpg").2 k)
              = true.
Proof.
  assert (path_exists Sessions.taken Sessions.bk_with_dir ("bk" // "a.jpg")
          = true) as Hb by by_vm.
  split; [exact Hb|].
  exact (unique_name_collision Sessions.taken Sessions.bk_with_dir
           "bk" "a.jpg" Hb).
Defined.

(** A second file, or a directory, that bears the first candidate name
    sends the loop on to the second; a directory that bears the base name
    is a collision like a file. *)
Example unique_name_second :
  unique_name Sessions.taken_twice Sessions.bk_only "bk" "a.jpg"
  = "bk/a__pswipe_2.jpg"
  ∧ unique_name Sessions.taken Sessions.bk_with_dir "bk" "a.jpg"
    = "bk/a__pswipe_2.jpg"
  ∧ unique_name ∅ {["bk"; "bk/a.jpg"]} "bk" "a.jpg" = "bk/a__pswipe_1.jpg".
Proof. split_and!; by_vm. Qed.

(** C8, as stated, fails: with [a.jpg] taken the code answers
    [a__pswipe_1.jpg], which is [a__n.jpg] for no [n]. *)
Lemma unique_name_not_as_claimed :
  ¬ Claimed.collision_name Sessions.taken Sessions.bk_only "bk" "a.jpg".
Proof.
  intros H. destruct H as [n Hn]; [by_vm|].
  assert (unique_name Sessions.taken Sessions.bk_only "bk" "a.jpg"
          = "bk" +:+ "/" +:+ "a" +:+ "__" +:+ "pswipe_1.jpg") as Hcode
    by by_vm.
  assert (Paths.splitext "a.jpg" = ("a", ".jpg")) as Hsplit by reflexivity.
  rewrite Hcode, Hsplit in Hn. unfold Paths.join, Claimed.suffixed_name in Hn.
  simpl fst in Hn. simpl snd in Hn.
  do 4 apply (inj (String.append _)) in Hn.
  destruct (pretty_nat_head n ".jpg") as (c & r & Heq & Hc).
  rewrite Heq in Hn. injection Hn as Hp _. congruence.
Qed.

(** ** [current_path] *)

Lemma current_path_Some (a : App) (p : string) :
  current_path a = Some p →
  ∃ f rel, folder a = Some f ∧ (0 <= index a < len a)%Z
           ∧ files_order a !! Z.to_nat (index a) = Some rel
           ∧ p = f // rel.
Proof.
  unfold current_path. intros Hp.
  destruct (folder a) as [f|]; [|done].
  destruct (files_order a) as [|x l] eqn:Ho; [done|].
  case_decide as Hi; [|done].
  destruct ((x :: l) !! Z.to_nat (index a)) as [rel|] eqn:Hrel; [|done].
  injection Hp as <-. by exists f, rel.
Qed.

Lemma current_path_out_of_range (a : App) :
  ¬ (0 <= index a < len a)%Z → current_path a = None.
Proof.
  intros Hi. destruct (current_path a) as [p|] eqn:Hp; [|done].
  by apply current_path_Some in Hp as (_ & _ & _ & ? & _).
Qed.

Lemma current_path_in_range (a : App) (f : string) :
  folder a = Some f → (0 <= index a < len a)%Z →
  ∃ rel, files_order a !! Z.to_nat (index a) = Some rel
         ∧ current_path a = Some (f // rel).
Proof.
  unfold current_path, len. intros -> Hi.
  destruct (lookup_lt_is_Some_2 (files_order a) (Z.to_nat (index a)))
    as [rel Hrel]; [lia|].
  exists rel. split; [done|].
  destruct (files_order a) as [|x l] eqn:Ho; [simpl in Hi; lia|].
  rewrite decide_True by done. by rewrite Hrel.
Qed.

(** C10.  [current_path] is a total function: it answers [None] with no
    folder loaded, with an empty order and with the cursor at the end of
    the list, and with a folder loaded it answers the folder joined with
    [order[cursor]] exactly when [0 <= cursor < len(order)].  As the order
    is empty until a folder is open (lemma [folder_inv_run]), it answers
    an entry exactly when the cursor is within the order. *)
Theorem current_path_total (a : App) :
  (folder a = None → current_path a = None)
  ∧ (files_order a = [] → current_path a = None)
  ∧ (index a = len a → current_path a = None)
  ∧ (¬ (0 <= index a < len a)%Z → current_path a = None)
  ∧ (∀ f, folder a = Some f → (0 <= index a < len a)%Z →
          ∃ rel, files_order a !! Z.to_nat (index a) = Some rel
                 ∧ current_path a = Some (f // rel))
  ∧ (∀ p, current_path a = Some p → (0 <= index a < len a)%Z)
  ∧ (folder_inv a →
     (is_Some (current_path a) ↔ (0 <= index a < len a)%Z)).
Proof.
  split_and!.
  - unfold current_path. by intros ->.
  - intros Ho. apply current_path_out_of_range.
    unfold len. rewrite Ho. simpl. lia.
  - intros Hi. apply current_path_out_of_range. lia.
  - apply current_path_out_of_range.
  - apply current_path_in_range.
  - intros p Hp. by apply current_path_Some in Hp as (_ & _ & _ & ? & _).
  - intros Hinv. split.
    + intros [p Hp]. by apply current_path_Some in Hp as (_ & _ & _ & ? & _).
    + intros Hi. destruct (folder a) as [f|] eqn:Hf.
      * destruct (current_path_in_range a f Hf Hi) as (rel & _ & ->). eauto.
      * unfold len in Hi. rewrite (Hinv Hf) in Hi. simpl in Hi. lia.
Qed.

Lemma current_path_total_witness :
  folder Sessions.kept_twice.2 = Some "t"
  ∧ (0 <= index Sessions.kept_twice.2 < len Sessions.kept_twice.2)%Z
  ∧ ∃ rel, files_order Sessions.kept_twice.2
             !! Z.to_nat (index Sessions.kept_twice.2) = Some rel
           ∧ current_path Sessions.kept_twice.2 = Some ("t" // rel).
Proof.
  assert (folder Sessions.kept_twice.2 = Some "t") as Hf by by_vm.
  assert (0 <= index Sessions.kept_twice.2 < len Sessions.kept_twice.2)%Z
    as Hi by (vm_compute; split; [discriminate | reflexivity]).
  split; [exact Hf | split; [exact Hi |]].
  exact (proj1 (proj2 (proj2 (proj2 (proj2
           (current_path_total Sessions.kept_twice.2))))) "t" Hf Hi).
Defined.

(** Only the folder, the order and the cursor matter to it. *)
Lemma current_path_ext (a b : App) :
  folder a = folder b → files_order a = files_order b → index a = index b →
  current_path a = current_path b.
Proof. unfold current_path, len. by intros -> -> ->. Qed.

(** ** [_commit_pending_delete] *)

Lemma commit_app (E : Env) (w : World) (a : App) :
  (commit_pending_delete E w a).2 = set_last_action None a.
Proof.
  unfold commit_pending_delete. destruct (last_action a) eqn:Ha; [done|].
  simpl. destruct a; simpl in *. by subst.
Qed.

Lemma commit_ui (E : Env) (w : World) (a : App) :
  ui (commit_pending_delete E w a).1 = ui w
  ∧ answers (commit_pending_delete E w a).1 = answers w
  ∧ now (commit_pending_delete E w a).1 = now w.
Proof.
  unfold commit_pending_delete.
  destruct (last_action a) as [[|orig bp]|]; simpl; [done| |done].
  by case_decide.
Qed.

(** ** [load_folder] on a folder without images *)

(** C9.  Opening a folder whose scan yields no eligible image sets the
    session root to the new folder and tells the operator so, but leaves
    the order, the cursor and the pending action of the previous session as
    they were. *)
Theorem load_folder_no_images (E : Env) (f : string) (w : World) (a : App) :
  scan_images_recursive f (fs w) = [] →
  folder (load_folder E f w a).2 = Some f
  ∧ files_order (load_folder E f w a).2 = files_order a
  ∧ index (load_folder E f w a).2 = index a
  ∧ last_action (load_folder E f w a).2 = last_action a
  ∧ fs (load_folder E f w a).1 = fs w
  ∧ ui (load_folder E f w a).1
    = Information "Vazio"
        :: StatusMessage ("Carregando pasta: " +:+ f) :: ui w.
Proof. intros H. unfold load_folder. simpl. by rewrite H. Qed.

Lemma load_folder_no_images_witness :
  scan_images_recursive "q" (fs Sessions.kept_twice.1) = []
  ∧ folder Sessions.kept_twice_then_q.2 = Some "q"
  ∧ files_order Sessions.kept_twice_then_q.2 = ["3.jpg"; "1.jpg"; "2.jpg"]
  ∧ index Sessions.kept_twice_then_q.2 = 2%Z
  ∧ last_action Sessions.kept_twice_then_q.2 = Some (Keep 1).
Proof.
  assert (scan_images_recursive "q" (fs Sessions.kept_twice.1) = [])
    as Hscan by by_vm.
  split; [exact Hscan|].
  destruct (load_folder_no_images Sessions.E_ok "q"
              Sessions.kept_twice.1 Sessions.kept_twice.2 Hscan)
    as (Hf & Ho & Hi & Hl & _).
  vm_compute in Hf, Ho, Hi, Hl. vm_compute.
  split_and!; [exact Hf | exact Ho | exact Hi | exact Hl].
Defined.

(** ** Where a staged file goes back *)

(** The place [undo_last] restores to is a free path below the folder, and
    the original one when that is free. *)
Lemma restore_dest_inside (m : FS) (ds : gset string) (f orig : string) :
  ∃ rel, restore_dest m ds f orig = f // rel
         ∧ path_exists m ds (f // rel) = false
         ∧ (path_exists m ds (f // orig) = false → rel = orig).
Proof.
  unfold restore_dest.
  destruct (path_exists m ds (f // orig)) eqn:Hex; [|by exists orig].
  pose proof (unique_name_free m ds (Paths.parent (f // orig))
                (Paths.name (f // orig))) as Hfree.
  assert (∃ n, unique_name m ds (Paths.parent (f // orig))
                 (Paths.name (f // orig))
               = Paths.parent (f // orig) // n) as [n Hn].
  { destruct (path_exists m ds (Paths.parent (f // orig)
                                // Paths.name (f // orig))) eqn:Hb.
    - destruct (unique_name_first_free m ds _ _ Hb) as (k & _ & -> & _).
      by eexists.
    - rewrite unique_name_no_collision by done. by eexists. }
  rewrite Hn in Hfree |- *.
  unfold Paths.parent in Hfree |- *. rewrite rsplit_join in Hfree |- *.
  destruct (Paths.rsplit orig) as [[d' n']|].
  - exists (d' // n). rewrite join_assoc in Hfree |- *. by split_and!.
  - exists n. by split_and!.
Qed.

Lemma restore_dest_free (m : FS) (ds : gset string) (f orig : string) :
  m !! restore_dest m ds f orig = None ∧ restore_dest m ds f orig ∉ ds.
Proof.
  destruct (restore_dest_inside m ds f orig) as (rel & -> & Hfree & _).
  by apply path_exists_false.
Qed.

(** ** The directories the window makes *)

(** They never bear a name [unique_name] tries: what [mkdir] adds is the
    directory searched or one of its ancestors. *)
Lemma backup_target_mkdir (m : FS) (ds : gset string) (f rel : string) :
  backup_target m ({[backup_dir f]} ∪ ds) f rel = backup_target m ds f rel.
Proof.
  unfold backup_target. apply unique_name_ext. intros n.
  unfold path_exists. apply bool_decide_ext.
  rewrite elem_of_union, elem_of_singleton.
  assert (backup_dir f // n ≠ backup_dir f) as Hne.
  { intros Heq. apply (f_equal String.length) in Heq.
    rewrite join_length in Heq. lia. }
  tauto.
Qed.

Lemma path_exists_mkdir_parents
    (m : FS) (ds : gset string) (d n : string) :
  path_exists m (list_to_set (d :: Paths.parents d) ∪ ds) (d // n)
  = path_exists m ds (d // n).
Proof.
  unfold path_exists. apply bool_decide_ext. rewrite elem_of_union.
  pose proof (join_not_parent d n). tauto.
Qed.

Lemma restore_dest_mkdir (m : FS) (ds : gset string) (f orig : string) :
  restore_dest m
    (list_to_set (Paths.parent (f // orig)
                  :: Paths.parents (Paths.parent (f // orig))) ∪ ds) f orig
  = restore_dest m ds f orig.
Proof.
  unfold restore_dest.
  pose proof (parent_name_join f orig) as Hd.
  set (P := Paths.parent (f // orig)) in *.
  set (N := Paths.name (f // orig)) in *.
  assert (path_exists m (list_to_set (P :: Paths.parents P) ∪ ds) (f // orig)
          = path_exists m ds (f // orig)) as ->
    by (rewrite <- Hd; apply path_exists_mkdir_parents).
  destruct (path_exists m ds (f // orig)); [|done].
  apply unique_name_ext. intros n. apply path_exists_mkdir_parents.
Qed.

(** ** Failures of the file system *)

(** A move that raised leaves every path but the destination as it was. *)
Lemma fs_move_failed_lookup (E : Env) (src dst k : string) (m : FS) :
  k ≠ dst → fs_move_failed E src dst m !! k = m !! k.
Proof.
  intros Hk. unfold fs_move_failed.
  destruct (m !! src) as [bytes|]; [|done].
  destruct (mv_left E src dst bytes); [|done].
  by rewrite lookup_insert_ne.
Qed.

(** ... and the source too, the destination being free. *)
Lemma fs_move_failed_source (E : Env) (src dst : string) (m : FS) :
  m !! dst = None → fs_move_failed E src dst m !! src = m !! src.
Proof.
  intros Hdst. destruct (decide (src = dst)) as [->|Hne].
  - unfold fs_move_failed. by rewrite Hdst.
  - by apply fs_move_failed_lookup.
Qed.

(** [request_delete] when the move raises. *)
Lemma request_delete_step_failure
    (E : Env) (w : World) (a : App) (p f rel : string) :
  current_path a = Some p → folder a = Some f →
  files_order a !! Z.to_nat (index a) = Some rel →
  fs_move E p
    (backup_target (fs (commit_pending_delete E w a).1)
       (dirs (commit_pending_delete E w a).1) f rel)
    (fs (commit_pending_delete E w a).1) = None →
  request_delete_step E w a
  = (say (Critical "Falha ao deletar")
       (set_fs
          (fs_move_failed E p
             (backup_target (fs (commit_pending_delete E w a).1)
                (dirs (commit_pending_delete E w a).1) f rel)
             (fs (commit_pending_delete E w a).1))
          (mkdir_parents
             (Paths.parent
                (backup_target (fs (commit_pending_delete E w a).1)
                   (dirs (commit_pending_delete E w a).1) f rel))
             (mkdir (backup_dir f) (commit_pending_delete E w a).1))),
     set_last_action None a, false).
Proof.
  intros Hp Hf Hrel Hmv.
  unfold request_delete_step.
  pose proof (commit_app E w a) as Ha.
  destruct (commit_pending_delete E w a) as [wc ac]. simpl in *. subst ac.
  rewrite (current_path_ext _ a), Hp by done. simpl.
  rewrite Hf, Hrel. simpl. rewrite backup_target_mkdir, Hmv. done.
Qed.

(** C3.  When the move into the backup directory fails, the current entry
    being no directory, [request_delete] leaves the order and the cursor as
    they were, removes no entry and surfaces the error in a message box.
    The file of the entry is still in its place, and every path but the
    staging name, where the move may have left a copy, holds what the
    commit of the earlier action left there. *)
Theorem request_delete_staging_failure
    (E : Env) (w : World) (a : App) (p f rel : string) :
  current_path a = Some p → folder a = Some f →
  files_order a !! Z.to_nat (index a) = Some rel →
  p ∉ dirs (commit_pending_delete E w a).1 →
  fs_move E p
    (backup_target (fs (commit_pending_delete E w a).1)
       (dirs (commit_pending_delete E w a).1) f rel)
    (fs (commit_pending_delete E w a).1) = None →
  files_order (request_delete E w a).2 = files_order a
  ∧ index (request_delete E w a).2 = index a
  ∧ ui (request_delete E w a).1 = Critical "Falha ao deletar" :: ui w
  ∧ fs (request_delete E w a).1 !! p
    = fs (commit_pending_delete E w a).1 !! p
  ∧ ∀ k, k ≠ backup_target (fs (commit_pending_delete E w a).1)
               (dirs (commit_pending_delete E w a).1) f rel →
         fs (request_delete E w a).1 !! k
         = fs (commit_pending_delete E w a).1 !! k.
Proof.
  intros Hp Hf Hrel _ Hmv.
  unfold request_delete.
  rewrite (request_delete_step_failure E w a p f rel Hp Hf Hrel Hmv).
  pose proof (commit_ui E w a) as (Hui & _).
  simpl. split_and!; [done | done | by rewrite Hui | |].
  - apply fs_move_failed_source.
    pose proof (unique_name_free (fs (commit_pending_delete E w a).1)
                  (dirs (commit_pending_delete E w a).1)
                  (backup_dir f) (Paths.name rel)) as Hfree.
    by apply path_exists_false in Hfree as [? _].
  - intros k Hk. by apply fs_move_failed_lookup.
Qed.

Lemma request_delete_staging_failure_witness :
  current_path Sessions.loaded_no_move.2 = Some "t/3.jpg"
  ∧ fs_move Sessions.E_no_move "t/3.jpg"
      (backup_target
         (fs (commit_pending_delete Sessions.E_no_move
                Sessions.loaded_no_move.1 Sessions.loaded_no_move.2).1)
         (dirs (commit_pending_delete Sessions.E_no_move
                  Sessions.loaded_no_move.1 Sessions.loaded_no_move.2).1)
         "t" "3.jpg")
      (fs (commit_pending_delete Sessions.E_no_move
             Sessions.loaded_no_move.1 Sessions.loaded_no_move.2).1) = None
  ∧ files_order (request_delete Sessions.E_no_move
                   Sessions.loaded_no_move.1 Sessions.loaded_no_move.2).2
    = files_order Sessions.loaded_no_move.2
  ∧ index (request_delete Sessions.E_no_move
             Sessions.loaded_no_move.1 Sessions.loaded_no_move.2).2
    = index Sessions.loaded_no_move.2
  ∧ fs (request_delete Sessions.E_no_move
          Sessions.loaded_no_move.1 Sessions.loaded_no_move.2).1 !! "t/3.jpg"
    = fs (commit_pending_delete Sessions.E_no_move
            Sessions.loaded_no_move.1 Sessions.loaded_no_move.2).1
        !! "t/3.jpg".
Proof.
  assert (current_path Sessions.loaded_no_move.2 = Some "t/3.jpg")
    as Hp by by_vm.
  assert (folder Sessions.loaded_no_move.2 = Some "t") as Hf by by_vm.
  assert (files_order Sessions.loaded_no_move.2
            !! Z.to_nat (index Sessions.loaded_no_move.2) = Some "3.jpg")
    as Hrel by by_vm.
  assert ("t/3.jpg" ∉ dirs (commit_pending_delete Sessions.E_no_move
                               Sessions.loaded_no_move.1
                               Sessions.loaded_no_move.2).1) as Hdir.
  { apply (bool_decide_eq_true_1 _). by_vm. }
  assert (fs_move Sessions.E_no_move "t/3.jpg"
            (backup_target
               (fs (commit_pending_delete Sessions.E_no_move
                      Sessions.loaded_no_move.1
                      Sessions.loaded_no_move.2).1)
               (dirs (commit_pending_delete Sessions.E_no_move
                        Sessions.loaded_no_move.1
                        Sessions.loaded_no_move.2).1) "t" "3.jpg")
            (fs (commit_pending_delete Sessions.E_no_move
                   Sessions.loaded_no_move.1 Sessions.loaded_no_move.2).1)
          = None) as Hmv by by_vm.
  destruct (request_delete_staging_failure Sessions.E_no_move
              Sessions.loaded_no_move.1 Sessions.loaded_no_move.2
              "t/3.jpg" "t" "3.jpg" Hp Hf Hrel Hdir Hmv)
    as (Ho & Hi & _ & Hsrc & _).
  split_and!; [exact Hp | exact Hmv | exact Ho | exact Hi | exact Hsrc].
Defined.

(** The refused move of the witness has left a copy in the backup
    directory, beside the file that is still in its place. *)
Example staging_failure_leaves_copy :
  fs (request_delete Sessions.E_no_move
        Sessions.loaded_no_move.1 Sessions.loaded_no_move.2).1 !! "t/3.jpg"
  = Some "3"
  ∧ fs (request_delete Sessions.E_no_move
          Sessions.loaded_no_move.1 Sessions.loaded_no_move.2).1
      !! "t/.pswipe_last_backup/3.jpg" = Some "3".
Proof. split; by_vm. Qed.

(** [undo_last] when the move back raises. *)
Lemma undo_last_failure
    (E : Env) (w : World) (a : App) (orig bp f bytes : string) :
  last_action a = Some (Delete orig bp) → folder a = Some f →
  fs w !! bp = Some bytes →
  mv_ok E bp (restore_dest (fs w) (dirs w) f orig) = false →
  undo_last E w a
  = (say (Critical "Undo falhou")
       (set_fs
          (fs_move_failed E bp (restore_dest (fs w) (dirs w) f orig) (fs w))
          (mkdir_parents (Paths.parent (f // orig)) w)),
     set_last_action None a).
Proof.
  intros Ha Hf Hbp Hmv. unfold undo_last. rewrite Ha.
  assert (path_exists (fs w) (dirs w) bp = true) as ->
    by (apply path_exists_true; eauto).
  cbn [negb folder set_last_action]. rewrite Hf.
  unfold mkdir_parents, set_dirs. cbn [fs dirs].
  rewrite restore_dest_mkdir.
  unfold fs_move. by rewrite Hbp, Hmv.
Qed.

(** C1, as amended.  When [undo_last] finds the staged file of a pending
    delete but the move back fails, the order and the cursor are as before
    the call and the error is surfaced; the staged file is still in the
    backup directory and every path but the destination, where the move
    may have left a copy, holds what it held.  The pending action, however,
    has been cleared, so that a second [undo_last] finds nothing to
    undo. *)
Theorem undo_restore_failure
    (E : Env) (w : World) (a : App) (orig bp f bytes : string) :
  last_action a = Some (Delete orig bp) → folder a = Some f →
  fs w !! bp = Some bytes →
  mv_ok E bp (restore_dest (fs w) (dirs w) f orig) = false →
  files_order (undo_last E w a).2 = files_order a
  ∧ index (undo_last E w a).2 = index a
  ∧ last_action (undo_last E w a).2 = None
  ∧ ui (undo_last E w a).1 = Critical "Undo falhou" :: ui w
  ∧ fs (undo_last E w a).1 !! bp = Some bytes
  ∧ (∀ k, k ≠ restore_dest (fs w) (dirs w) f orig →
          fs (undo_last E w a).1 !! k = fs w !! k)
  ∧ (undo_last E (undo_last E w a).1 (undo_last E w a).2).2
    = (undo_last E w a).2
  ∧ ui (undo_last E (undo_last E w a).1 (undo_last E w a).2).1
    = StatusMessage "Nada para desfazer" :: ui (undo_last E w a).1.
Proof.
  intros Ha Hf Hbp Hmv.
  rewrite (undo_last_failure E w a orig bp f bytes Ha Hf Hbp Hmv).
  simpl. split_and!; try done.
  - rewrite fs_move_failed_lookup; [done|].
    intros ->.
    destruct (restore_dest_free (fs w) (dirs w) f orig) as [Hfree _].
    congruence.
  - intros k Hk. by apply fs_move_failed_lookup.
Qed.

Lemma undo_restore_failure_witness :
  last_action Sessions.staged_no_restore.2
  = Some (Delete "c.png" "r/.pswipe_last_backup/c.png")
  ∧ fs Sessions.staged_no_restore.1 !! "r/.pswipe_last_backup/c.png"
    = Some "C"
  ∧ mv_ok Sessions.E_no_restore "r/.pswipe_last_backup/c.png"
      (restore_dest (fs Sessions.staged_no_restore.1)
         (dirs Sessions.staged_no_restore.1) "r" "c.png") = false
  ∧ files_order (undo_last Sessions.E_no_restore
                   Sessions.staged_no_restore.1
                   Sessions.staged_no_restore.2).2
    = files_order Sessions.staged_no_restore.2
  ∧ index (undo_last Sessions.E_no_restore
             Sessions.staged_no_restore.1
             Sessions.staged_no_restore.2).2
    = index Sessions.staged_no_restore.2
  ∧ last_action (undo_last Sessions.E_no_restore
                   Sessions.staged_no_restore.1
                   Sessions.staged_no_restore.2).2 = None
  ∧ fs (undo_last Sessions.E_no_restore
          Sessions.staged_no_restore.1
          Sessions.staged_no_restore.2).1 !! "r/.pswipe_last_backup/c.png"
    = Some "C".
Proof.
  assert (last_action Sessions.staged_no_restore.2
          = Some (Delete "c.png" "r/.pswipe_last_backup/c.png"))
    as Ha by by_vm.
  assert (folder Sessions.staged_no_restore.2 = Some "r") as Hf by by_vm.
  assert (fs Sessions.staged_no_restore.1 !! "r/.pswipe_last_backup/c.png"
          = Some "C") as Hbp by by_vm.
  assert (mv_ok Sessions.E_no_restore "r/.pswipe_last_backup/c.png"
            (restore_dest (fs Sessions.staged_no_restore.1)
               (dirs Sessions.staged_no_restore.1) "r" "c.png") = false)
    as Hmv by by_vm.
  destruct (undo_restore_failure Sessions.E_no_restore
              Sessions.staged_no_restore.1 Sessions.staged_no_restore.2
              "c.png" "r/.pswipe_last_backup/c.png" "r" "C" Ha Hf Hbp Hmv)
    as (Ho & Hi & Hl & _ & Hstaged & _).
  split_and!; [exact Ha | exact Hbp | exact Hmv | exact Ho | exact Hi
              | exact Hl | exact Hstaged].
Defined.

(** The refused move of the witness has left a copy at the original path,
    beside the staged file. *)
Example undo_failure_leaves_copy :
  fs (undo_last Sessions.E_no_restore Sessions.staged_no_restore.1
        Sessions.staged_no_restore.2).1 !! "r/c.png" = Some "C"
  ∧ fs Sessions.staged_no_restore.1 !! "r/c.png" = None.
Proof. split; by_vm. Qed.

(** C1, as stated, fails: after a delete whose staged file cannot be moved
    back, [undo_last] returns with the pending action gone. *)
Lemma undo_failure_loses_pending :
  ¬ Claimed.undo_failure_keeps_state Sessions.E_no_restore
      Sessions.staged_no_restore.1 Sessions.staged_no_restore.2.
Proof.
  intros H.
  specialize (H "c.png" "r/.pswipe_last_backup/c.png" "r" "C").
  assert (last_action
            (undo_last Sessions.E_no_restore Sessions.staged_no_restore.1
               Sessions.staged_no_restore.2).2
          = last_action Sessions.staged_no_restore.2) as Heq.
  { f_equal. apply H; by_vm. }
  vm_compute in Heq. discriminate.
Qed.

(** ** [show_current] *)

Section ShowCurrent.
Variable E : Env.

Lemma show_current_with_eq (bs : list Button) (w : World) (a : App) :
  show_current_with E bs w a
  = show_loop E (finish_with E bs) (recursion_room E) w a.
Proof. by destruct bs. Qed.

(** An entry that loads is put on display and nothing else happens. *)
Lemma show_loop_shows finish (fuel : nat) (w : World) (a : App) (p : string) :
  current_path a = Some p → pix_is_null E (fs w) p = false →
  show_loop E finish fuel w a = (display p w a, a).
Proof. intros Hp Hn. destruct fuel; simpl; by rewrite Hp, Hn. Qed.

Lemma show_current_shows (w : World) (a : App) (p : string) :
  current_path a = Some p → pix_is_null E (fs w) p = false →
  show_current E w a = (display p w a, a).
Proof.
  intros Hp Hn. unfold show_current. rewrite show_current_with_eq.
  by apply show_loop_shows.
Qed.

(** At the end of the list with the dialog already shown nothing happens. *)
Lemma show_current_exhausted (w : World) (a : App) :
  current_path a = None → finished_dialog_shown a = true →
  show_current E w a = (w, a).
Proof.
  intros Hp Hs. unfold show_current. rewrite show_current_with_eq.
  destruct (recursion_room E); simpl; by rewrite Hp, Hs.
Qed.

(** Popping the current entry. *)
Lemma pop_current (a : App) (p : string) :
  current_path a = Some p →
  list_pop (index a) (files_order a)
  = delete (Z.to_nat (index a)) (files_order a)
  ∧ S (length (list_pop (index a) (files_order a)))
    = length (files_order a).
Proof.
  intros Hp. apply current_path_Some in Hp as (f & rel & _ & Hi & Hrel & _).
  unfold len in Hi. unfold list_pop. rewrite decide_True by done.
  split; [done|]. rewrite length_delete by eauto. lia.
Qed.

(** A relation between sessions that holds across the elementary updates
    of [show_current] holds across [show_current]. *)
Section Across.
Variable R : App → App → Prop.
Hypothesis R_refl : ∀ a, R a a.
Hypothesis R_trans : ∀ a b c, R a b → R b c → R a c.
Hypothesis R_pop : ∀ a p,
  current_path a = Some p →
  R a (clamp_top (set_files_order (list_pop (index a) (files_order a)) a)).
Hypothesis R_flag : ∀ a b, R a (set_finished_dialog_shown b a).
Hypothesis R_commit : ∀ a, R a (set_last_action None a).
Hypothesis R_restart : ∀ a f files,
  folder a = Some f → last_action a = None →
  R a (set_finished_dialog_shown false
         (set_index 0 (set_files_order files a))).

Lemma show_loop_across finish :
  (∀ w a, R a (finish w a).2) →
  ∀ fuel w a, R a (show_loop E finish fuel w a).2.
Proof.
  intros Hfin. induction fuel as [|fuel IH]; intros w a; simpl.
  - destruct (current_path a) as [p|] eqn:Hp.
    + destruct (pix_is_null E (fs w) p); simpl; [by eapply R_pop | done].
    + destruct (finished_dialog_shown a); simpl; [done|].
      eapply R_trans; [apply (R_flag a true) | apply Hfin].
  - destruct (current_path a) as [p|] eqn:Hp.
    + destruct (pix_is_null E (fs w) p); simpl; [|done].
      eapply R_trans; [by eapply R_pop | apply IH].
    + destruct (finished_dialog_shown a); simpl; [done|].
      eapply R_trans; [apply (R_flag a true) | apply Hfin].
Qed.

Lemma on_finished_list_across show (b : Button) :
  (∀ w a, R a (show w a).2) →
  ∀ w a, R a (on_finished_list E show b w a).2.
Proof.
  intros Hshow w a. unfold on_finished_list.
  pose proof (commit_app E (say (FinishDialog b) w) a) as Hc.
  destruct b.
  - destruct (commit_pending_delete E _ a) as [wc ac]. simpl in Hc. subst ac.
    unfold reshuffle_and_restart.
    destruct (folder (set_last_action None a)) eqn:Hf; simpl.
    + eapply R_trans; [apply R_commit|].
      eapply R_trans; [|apply Hshow]. by eapply R_restart.
    + apply R_commit.
  - destruct (commit_pending_delete E _ a) as [wc ac]. simpl in Hc. subst ac.
    simpl. apply R_commit.
  - eapply R_trans; [apply (R_flag a false) | apply Hshow].
Qed.

Lemma show_current_with_across (bs : list Button) :
  ∀ w a, R a (show_current_with E bs w a).2.
Proof.
  induction bs as [|b bs IH]; intros w a; rewrite show_current_with_eq;
    apply show_loop_across; intros w1 a1; unfold finish_with;
    apply on_finished_list_across; [intros; apply R_refl | apply IH].
Qed.

Lemma show_current_across (w : World) (a : App) :
  R a (show_current E w a).2.
Proof. apply show_current_with_across. Qed.

End Across.

(** The cursor stays within bounds. *)
Lemma show_current_cursor_inv (w : World) (a : App) :
  cursor_inv a → cursor_inv (show_current E w a).2.
Proof.
  apply (show_current_across (λ a b, cursor_inv a → cursor_inv b));
    unfold cursor_inv, clamp_top, len; try done.
  - intros ??? H1 H2 H. by apply H2, H1.
  - intros a' p Hp _.
    pose proof (pop_current a' p Hp) as [_ Hlen].
    apply current_path_Some in Hp as (_ & _ & _ & Hi & _). unfold len in Hi.
    simpl. case_decide; simpl; lia.
  - intros a' f files _ _ _. simpl. lia.
Qed.

(** The pending action is cleared, or it and the cursor are untouched. *)
Lemma show_current_pending (w : World) (a : App) :
  last_action (show_current E w a).2 = None
  ∨ (last_action (show_current E w a).2 = last_action a
     ∧ index (show_current E w a).2 = index a).
Proof.
  apply (show_current_across
           (λ a b, last_action b = None
                   ∨ (last_action b = last_action a ∧ index b = index a)));
    try (simpl; by auto).
  - intros a1 b1 c1 [H1|[H1 H1']] [H2|[H2 H2']]; auto.
    + left. congruence.
    + right. split; congruence.
  - intros a' p Hp. right.
    pose proof (pop_current a' p Hp) as [_ Hlen].
    apply current_path_Some in Hp as (_ & _ & _ & Hi & _). unfold len in Hi.
    unfold clamp_top, len. simpl. case_decide; simpl; [|done].
    split; [done|lia].
Qed.

(** The folder stays, and without a folder so does the order. *)
Lemma show_current_folder (w : World) (a : App) :
  folder (show_current E w a).2 = folder a
  ∧ (folder a = None → files_order (show_current E w a).2 = files_order a).
Proof.
  apply (show_current_across
           (λ a b, folder b = folder a
                   ∧ (folder a = None → files_order b = files_order a)));
    try done.
  - intros a1 b1 c1 [H1 H1'] [H2 H2']. split; [congruence|].
    intros Hn. rewrite H2', H1'; [done|done|congruence].
  - intros a' p Hp. apply current_path_Some in Hp as (f & _ & Hf & _).
    unfold clamp_top. case_decide; simpl; split; congruence.
  - intros a' f files Hf _. simpl. split; congruence.
Qed.

End ShowCurrent.




(** With less room the call ends in [RecursionError] on an entry that
    cannot be loaded: of four missing files and two nested calls, the
    fourth is left at the cursor and nothing is shown. *)
Example show_current_overflow :
  files_order
    (show_current Sessions.E_shallow (Sessions.world0 [])
       {| folder := Some "t"; files_order := ["w.jpg"; "x.jpg"; "y.jpg";
                                               "z.jpg"];
          index := 0; last_action := None;
          finished_dialog_shown := false |}).2 = ["z.jpg"]
  ∧ ui (show_current Sessions.E_shallow (Sessions.world0 [])
          {| folder := Some "t"; files_order := ["w.jpg"; "x.jpg"; "y.jpg";
                                                  "z.jpg"];
             index := 0; last_action := None;
             finished_dialog_shown := false |}).1 = [].
Proof. split; by_vm. Qed.

(** ** The cursor invariant *)

Lemma length_list_insert_at (i : Z) (x : string) (l : list string) :
  length (list_insert_at i x l) = S (length l).
Proof.
  unfold list_insert_at.
  rewrite length_app. simpl. rewrite length_take, length_drop. lia.
Qed.

Lemma advance_cursor_inv (E : Env) (step : Z) (w : World) (a : App) :
  cursor_inv (advance E step w a).2.
Proof.
  unfold advance. apply show_current_cursor_inv.
  unfold cursor_inv, len. simpl.
  repeat case_decide; lia.
Qed.

Lemma request_keep_cursor_inv (E : Env) (w : World) (a : App) :
  cursor_inv a → cursor_inv (request_keep E w a).2.
Proof.
  intros Ha. unfold request_keep.
  pose proof (commit_app E w a) as Hc.
  destruct (commit_pending_delete E w a) as [wc ac]. simpl in Hc. subst ac.
  destruct (current_path _); [apply advance_cursor_inv | done].
Qed.

Lemma request_delete_step_cursor_inv (E : Env) (w : World) (a : App) :
  cursor_inv a → cursor_inv (request_delete_step E w a).1.2.
Proof.
  intros Ha. unfold request_delete_step.
  pose proof (commit_app E w a) as Hc.
  destruct (commit_pending_delete E w a) as [wc ac]. simpl in Hc. subst ac.
  destruct (current_path _) as [p|] eqn:Hp; [|done].
  destruct (folder _) as [f|]; [|done].
  destruct (fs_move _ _ _ _); [|done]. simpl.
  unfold cursor_inv, clamp_top, len in *. simpl in *.
  case_decide; simpl; lia.
Qed.

Lemma request_delete_cursor_inv (E : Env) (w : World) (a : App) :
  cursor_inv a → cursor_inv (request_delete E w a).2.
Proof.
  intros Ha. unfold request_delete.
  pose proof (request_delete_step_cursor_inv E w a Ha) as H.
  destruct (request_delete_step E w a) as [[w1 a1] staged]. simpl in H.
  destruct staged; [by apply show_current_cursor_inv | done].
Qed.

Lemma undo_last_cursor_inv (E : Env) (w : World) (a : App) :
  cursor_inv a → cursor_inv (undo_last E w a).2.
Proof.
  intros Ha. unfold undo_last.
  destruct (last_action a) as [[prev|orig bp]|]; [| |done].
  - apply show_current_cursor_inv.
    unfold cursor_inv, len in *. simpl. case_decide; simpl; lia.
  - destruct (negb _); [done|]. simpl.
    destruct (folder a) as [f|]; [|done].
    destruct (fs_move _ _ _ _); [|done].
    destruct (Paths.relative_to _ _); [|done].
    apply show_current_cursor_inv.
    unfold cursor_inv, len in *. simpl.
    rewrite length_list_insert_at. lia.
Qed.

Lemma load_folder_cursor_inv (E : Env) (f : string) (w : World) (a : App) :
  cursor_inv a → cursor_inv (load_folder E f w a).2.
Proof.
  intros Ha. unfold load_folder. simpl.
  destruct (scan_images_recursive f (fs w)); [done|].
  apply show_current_cursor_inv. unfold cursor_inv, len. simpl. lia.
Qed.

(** C6.  [0 <= cursor <= len(order)] holds when the window is created and
    is preserved by opening a folder, keep, delete, undo and the refresh
    that drops unreadable entries; at [cursor = len(order)] there is no
    current entry. *)
Theorem cursor_inv_preserved (E : Env) (w : World) (a : App) :
  cursor_inv a →
  (∀ f, cursor_inv (load_folder E f w a).2)
  ∧ cursor_inv (request_keep E w a).2
  ∧ cursor_inv (request_delete E w a).2
  ∧ cursor_inv (undo_last E w a).2
  ∧ cursor_inv (show_current E w a).2
  ∧ (index a = len a → current_path a = None).
Proof.
  intros Ha. split_and!.
  - intros f. by apply load_folder_cursor_inv.
  - by apply request_keep_cursor_inv.
  - by apply request_delete_cursor_inv.
  - by apply undo_last_cursor_inv.
  - by apply show_current_cursor_inv.
  - intros Hi. apply current_path_out_of_range. lia.
Qed.

Lemma cursor_inv_init : cursor_inv init.
Proof. unfold cursor_inv, len. simpl. lia. Qed.

Lemma cursor_inv_loaded_r : cursor_inv Sessions.loaded_r.2.
Proof. unfold cursor_inv, len. vm_compute. split; discriminate. Qed.

Lemma cursor_inv_preserved_witness :
  cursor_inv Sessions.loaded_r.2
  ∧ cursor_inv
      (load_folder Sessions.E_ok "t" Sessions.loaded_r.1 Sessions.loaded_r.2).2
  ∧ cursor_inv
      (request_keep Sessions.E_ok Sessions.loaded_r.1 Sessions.loaded_r.2).2
  ∧ cursor_inv
      (request_delete Sessions.E_ok Sessions.loaded_r.1 Sessions.loaded_r.2).2
  ∧ cursor_inv
      (undo_last Sessions.E_ok Sessions.loaded_r.1 Sessions.loaded_r.2).2.
Proof.
  destruct (cursor_inv_preserved Sessions.E_ok Sessions.loaded_r.1
              Sessions.loaded_r.2 cursor_inv_loaded_r)
    as (Hl & Hk & Hd & Hu & _).
  split_and!;
    [exact cursor_inv_loaded_r | exact (Hl "t") | exact Hk | exact Hd
    | exact Hu].
Defined.

(** Every session the operator can reach satisfies it. *)
Lemma cursor_inv_run (E : Env) (ops : list Op) :
  ∀ w a, cursor_inv a → cursor_inv (run E ops (w, a)).2.
Proof.
  induction ops as [|o ops IH]; intros w a Ha; [done|].
  unfold run. simpl. fold (run E ops).
  destruct o; simpl;
    [ pose proof (load_folder_cursor_inv E f w a Ha);
      destruct (load_folder E f w a)
    | pose proof (request_keep_cursor_inv E w a Ha);
      destruct (request_keep E w a)
    | pose proof (request_delete_cursor_inv E w a Ha);
      destruct (request_delete E w a)
    | pose proof (undo_last_cursor_inv E w a Ha);
      destruct (undo_last E w a) ]; by apply IH.
Qed.

(** ** The single pending action *)



(** [request_keep] on a current entry: commit, record, advance, refresh. *)
Lemma request_keep_step (E : Env) (w : World) (a : App) (p : string) :
  current_path a = Some p →
  request_keep E w a
  = show_current E (commit_pending_delete E w a).1
      (set_index (index a + 1) (set_last_action (Some (Keep (index a))) a)).
Proof.
  intros Hp. unfold request_keep.
  pose proof (current_path_Some a p Hp) as (f & rel & _ & Hi & _).
  pose proof (commit_app E w a) as Hc.
  destruct (commit_pending_delete E w a) as [wc ac]. simpl in *. subst ac.
  rewrite (current_path_ext _ a), Hp by done.
  unfold advance, len in *. simpl. do 2 f_equal.
  repeat case_decide; lia.
Qed.

Lemma request_keep_pending (E : Env) (w : World) (a : App) :
  last_action (request_keep E w a).2 = None
  ∨ (last_action (request_keep E w a).2 = Some (Keep (index a))
     ∧ index (request_keep E w a).2 = (index a + 1)%Z
     ∧ (0 <= index a)%Z).
Proof.
  unfold request_keep.
  pose proof (commit_app E w a) as Hc.
  destruct (commit_pending_delete E w a) as [wc ac]. simpl in Hc. subst ac.
  destruct (current_path _) as [p|] eqn:Hp; [|by left].
  apply current_path_Some in Hp as (_ & _ & _ & Hi & _).
  unfold len in Hi. simpl in Hi.
  unfold advance.
  match goal with |- context [show_current E ?w ?a] =>
    destruct (show_current_pending E w a) as [H|[H1 H2]] end; [by left|].
  right. rewrite H1, H2. simpl. unfold len. simpl.
  repeat case_decide; split_and!; try done; lia.
Qed.

Lemma request_delete_pending (E : Env) (w : World) (a : App) (act : Action) :
  last_action (request_delete E w a).2 = Some act →
  ∃ f rel, folder a = Some f
           ∧ files_order a !! Z.to_nat (index a) = Some rel
           ∧ act = Delete rel
                     (backup_target (fs (commit_pending_delete E w a).1)
                        (dirs (commit_pending_delete E w a).1) f rel).
Proof.
  unfold request_delete, request_delete_step.
  pose proof (commit_app E w a) as Hc.
  destruct (commit_pending_delete E w a) as [wc ac]. simpl in *. subst ac.
  destruct (current_path _) as [p|] eqn:Hp; [|done].
  apply current_path_Some in Hp as (f & rel & Hf & _ & Hrel & _).
  simpl in Hf, Hrel. simpl. rewrite Hf, Hrel. simpl.
  rewrite backup_target_mkdir.
  destruct (fs_move _ _ _ _); [|done].
  match goal with |- context [show_current E ?w ?a] =>
    destruct (show_current_pending E w a) as [H|[H _]] end;
    rewrite H; [done|].
  unfold clamp_top. case_decide; simpl; intros [= <-]; by exists f, rel.
Qed.

Lemma undo_last_pending (E : Env) (w : World) (a : App) :
  last_action (undo_last E w a).2 = None.
Proof.
  unfold undo_last.
  destruct (last_action a) as [[prev|orig bp]|] eqn:Ha; [| |done].
  - match goal with |- context [show_current E ?w ?a] =>
      destruct (show_current_pending E w a) as [H|[H _]] end;
      rewrite H; [done|]. by case_decide.
  - destruct (negb _); [done|]. cbn [folder set_last_action].
    destruct (folder a) as [f|]; [|done].
    destruct (fs_move _ _ _ _); [|done].
    destruct (Paths.relative_to _ _); [|done].
    match goal with |- context [show_current E ?w ?a] =>
      destruct (show_current_pending E w a) as [H|[H _]] end;
      by rewrite H.
Qed.

Lemma undo_nothing (E : Env) (w : World) (a : App) :
  last_action a = None →
  undo_last E w a = (say (StatusMessage "Nada para desfazer") w, a).
Proof. intros H. unfold undo_last. by rewrite H. Qed.




(** Scenario B: keep, keep, undo moves the cursor back by one; a further
    undo finds nothing. *)
Example keep_keep_undo :
  index Sessions.kept_twice.2 = 2%Z
  ∧ index (run Sessions.E_ok [OpUndo] Sessions.kept_twice).2 = 1%Z
  ∧ index (run Sessions.E_ok [OpUndo; OpUndo] Sessions.kept_twice).2 = 1%Z
  ∧ ui (run Sessions.E_ok [OpUndo; OpUndo] Sessions.kept_twice).1 !! 0%nat
    = Some (StatusMessage "Nada para desfazer").
Proof. split_and!; by_vm. Qed.

(** ** [request_delete] *)

Lemma take_drop_delete (l : list string) (n : nat) (x : string) :
  l !! n = Some x →
  (take n (delete n l) ++ x :: drop n (delete n l))%list = l.
Proof.
  revert n. induction l as [|y l IH]; intros [|n] H; simplify_eq/=; [done|].
  f_equal. by apply IH.
Qed.

Lemma list_insert_at_delete (l : list string) (i : Z) (x : string) :
  (0 <= i)%Z → l !! Z.to_nat i = Some x →
  list_insert_at i x (delete (Z.to_nat i) l) = l.
Proof.
  intros Hi Hx. unfold list_insert_at.
  pose proof (lookup_lt_Some _ _ _ Hx) as Hlt.
  rewrite decide_False by lia.
  rewrite length_delete by eauto.
  replace (Z.to_nat (Z.min i (Z.of_nat (length l - 1)))) with (Z.to_nat i)
    by lia.
  by apply take_drop_delete.
Qed.

Lemma clamp_top_id (a : App) : (index a <= len a)%Z → clamp_top a = a.
Proof.
  intros H. unfold clamp_top. case_decide; [|done].
  assert (len a = index a) as -> by lia. by destruct a.
Qed.

(** The session [request_delete] hands to the refresh of the display. *)
Lemma request_delete_step_success
    (E : Env) (w : World) (a : App) (p f rel : string) (m : FS) :
  current_path a = Some p → folder a = Some f →
  files_order a !! Z.to_nat (index a) = Some rel →
  fs_move E p
    (backup_target (fs (commit_pending_delete E w a).1)
       (dirs (commit_pending_delete E w a).1) f rel)
    (fs (commit_pending_delete E w a).1) = Some m →
  request_delete_step E w a
  = (moved p m
       (mkdir_parents
          (Paths.parent
             (backup_target (fs (commit_pending_delete E w a).1)
                (dirs (commit_pending_delete E w a).1) f rel))
          (mkdir (backup_dir f) (commit_pending_delete E w a).1)),
     set_last_action
       (Some (Delete rel
                (backup_target (fs (commit_pending_delete E w a).1)
                   (dirs (commit_pending_delete E w a).1) f rel)))
       (set_files_order (delete (Z.to_nat (index a)) (files_order a))
          (set_last_action None a)),
     true).
Proof.
  intros Hp Hf Hrel Hmv.
  pose proof (pop_current a p Hp) as [Hpop Hlen].
  pose proof (current_path_Some a p Hp) as (_ & _ & _ & Hi & _ & _).
  unfold len in Hi.
  unfold request_delete_step.
  pose proof (commit_app E w a) as Hc.
  destruct (commit_pending_delete E w a) as [wc ac]. simpl in *. subst ac.
  rewrite (current_path_ext _ a), Hp by done. simpl.
  rewrite Hf, Hrel. simpl. rewrite backup_target_mkdir, Hmv, Hpop.
  rewrite clamp_top_id; [done|].
  unfold len. simpl. rewrite <- Hpop. lia.
Qed.

(** C2, as amended.  With a current entry and a staging move that
    succeeds, [request_delete] removes the entry at the cursor from the
    order (which shrinks by exactly one), leaves the cursor where it was and
    records the pending [Delete] of that entry under its staging path; it
    then refreshes the display on that session, which stays as it is when
    the entry now at the cursor loads (or the list had ended with the finish
    dialog already shown). *)
Theorem request_delete_effect
    (E : Env) (w : World) (a : App) (p f rel : string) (m : FS) :
  current_path a = Some p → folder a = Some f →
  files_order a !! Z.to_nat (index a) = Some rel →
  fs_move E p
    (backup_target (fs (commit_pending_delete E w a).1)
       (dirs (commit_pending_delete E w a).1) f rel)
    (fs (commit_pending_delete E w a).1) = Some m →
  files_order (request_delete_step E w a).1.2
  = delete (Z.to_nat (index a)) (files_order a)
  ∧ S (length (files_order (request_delete_step E w a).1.2))
    = length (files_order a)
  ∧ index (request_delete_step E w a).1.2 = index a
  ∧ last_action (request_delete_step E w a).1.2
    = Some (Delete rel
              (backup_target (fs (commit_pending_delete E w a).1)
                 (dirs (commit_pending_delete E w a).1) f rel))
  ∧ fs (request_delete_step E w a).1.1 = m
  ∧ request_delete E w a
    = show_current E (request_delete_step E w a).1.1
        (request_delete_step E w a).1.2
  ∧ (at_rest E m (request_delete_step E w a).1.2 = true →
     (request_delete E w a).2 = (request_delete_step E w a).1.2
     ∧ fs (request_delete E w a).1 = m).
Proof.
  intros Hp Hf Hrel Hmv.
  pose proof (pop_current a p Hp) as [Hpop Hlen].
  pose proof (current_path_Some a p Hp) as (_ & _ & _ & Hi & _ & _).
  unfold len in Hi.
  unfold request_delete.
  rewrite (request_delete_step_success E w a p f rel m Hp Hf Hrel Hmv).
  cbn [fst snd].
  split_and!.
  - done.
  - simpl. rewrite <- Hpop. lia.
  - done.
  - done.
  - done.
  - done.
  - match goal with |- at_rest E m ?b = true → _ => set (a1 := b) end.
    unfold at_rest. intros Hrest.
    destruct (current_path a1) as [p1|] eqn:Hp1.
    + rewrite (show_current_shows E _ a1 p1); [done|done|].
      simpl. by destruct (pix_is_null E m p1).
    + by rewrite show_current_exhausted.
Qed.

Lemma request_delete_effect_witness :
  current_path Sessions.loaded_t.2 = Some "t/3.jpg"
  ∧ fs_move Sessions.E_ok "t/3.jpg"
      (backup_target
         (fs (commit_pending_delete Sessions.E_ok Sessions.loaded_t.1
                Sessions.loaded_t.2).1)
         (dirs (commit_pending_delete Sessions.E_ok Sessions.loaded_t.1
                Sessions.loaded_t.2).1) "t" "3.jpg")
      (fs (commit_pending_delete Sessions.E_ok Sessions.loaded_t.1
             Sessions.loaded_t.2).1) = Some Sessions.disk_staged_t
  ∧ at_rest Sessions.E_ok Sessions.disk_staged_t
      (request_delete_step Sessions.E_ok Sessions.loaded_t.1
         Sessions.loaded_t.2).1.2 = true
  ∧ files_order (request_delete Sessions.E_ok Sessions.loaded_t.1
                   Sessions.loaded_t.2).2
    = delete (Z.to_nat (index Sessions.loaded_t.2))
        (files_order Sessions.loaded_t.2)
  ∧ index (request_delete Sessions.E_ok Sessions.loaded_t.1
             Sessions.loaded_t.2).2 = index Sessions.loaded_t.2
  ∧ last_action (request_delete Sessions.E_ok Sessions.loaded_t.1
                   Sessions.loaded_t.2).2
    = Some (Delete "3.jpg"
              (backup_target
                 (fs (commit_pending_delete Sessions.E_ok
                        Sessions.loaded_t.1 Sessions.loaded_t.2).1)
                 (dirs (commit_pending_delete Sessions.E_ok
                        Sessions.loaded_t.1 Sessions.loaded_t.2).1)
                 "t" "3.jpg")).
Proof.
  assert (current_path Sessions.loaded_t.2 = Some "t/3.jpg") as Hp by by_vm.
  assert (folder Sessions.loaded_t.2 = Some "t") as Hf by by_vm.
  assert (files_order Sessions.loaded_t.2
            !! Z.to_nat (index Sessions.loaded_t.2) = Some "3.jpg")
    as Hrel by by_vm.
  assert (fs_move Sessions.E_ok "t/3.jpg"
            (backup_target
               (fs (commit_pending_delete Sessions.E_ok Sessions.loaded_t.1
                      Sessions.loaded_t.2).1)
               (dirs (commit_pending_delete Sessions.E_ok Sessions.loaded_t.1
                      Sessions.loaded_t.2).1) "t" "3.jpg")
            (fs (commit_pending_delete Sessions.E_ok Sessions.loaded_t.1
                   Sessions.loaded_t.2).1) = Some Sessions.disk_staged_t)
    as Hmv by by_vm.
  assert (at_rest Sessions.E_ok Sessions.disk_staged_t
            (request_delete_step Sessions.E_ok Sessions.loaded_t.1
               Sessions.loaded_t.2).1.2 = true) as Hrest by by_vm.
  destruct (request_delete_effect Sessions.E_ok Sessions.loaded_t.1
              Sessions.loaded_t.2 "t/3.jpg" "t" "3.jpg"
              Sessions.disk_staged_t Hp Hf Hrel Hmv)
    as (Ho & _ & Hi & Hl & _ & _ & Hfinal).
  destruct (Hfinal Hrest) as [Heq _]. rewrite Heq.
  split_and!; [exact Hp | exact Hmv | exact Hrest | exact Ho | exact Hi
              | exact Hl].
Defined.

(** C2, as stated, fails: in the folder [r] the image that follows the
    deleted one is corrupt, the refresh drops it, and the order has shrunk
    by two when [request_delete] returns. *)
Lemma request_delete_drops_more :
  ¬ Claimed.delete_outcome Sessions.E_ok
      Sessions.loaded_r.1 Sessions.loaded_r.2.
Proof.
  intros H.
  destruct (H "r/c.png" "r" "c.png" Sessions.disk_staged_r) as (Ho & _);
    [by_vm | by_vm | by_vm | by_vm |].
  vm_compute in Ho. discriminate.
Qed.

(** Deleting the last entry of the list ends in the finish dialog, which
    commits the delete: nothing is pending and the staged file is gone. *)
Example delete_last_entry :
  files_order Sessions.loaded_s.2 = ["only.jpg"]
  ∧ last_action (run Sessions.E_ok [OpDelete] Sessions.loaded_s).2 = None
  ∧ fs (run Sessions.E_ok [OpDelete] Sessions.loaded_s).1
      !! "s/.pswipe_last_backup/only.jpg" = None
  ∧ fs (run Sessions.E_ok [OpDelete] Sessions.loaded_s).1 !! "s/only.jpg"
    = None.
Proof. vm_compute. done. Qed.

(** ** Delete followed by undo *)

Lemma move_back_map (m : FS) (p t bytes : string) :
  m !! p = Some bytes → m !! t = None →
  <[p := bytes]> (delete t (<[t := bytes]> (delete p m))) = m.
Proof.
  intros Hp Ht. assert (p ≠ t) by congruence.
  apply map_eq. intros k.
  destruct (decide (k = p)) as [->|]; [by rewrite lookup_insert_eq|].
  rewrite lookup_insert_ne by done.
  destruct (decide (k = t)) as [->|]; [by rewrite lookup_delete_eq|].
  by rewrite lookup_delete_ne, lookup_insert_ne, lookup_delete_ne by done.
Qed.

(** [undo_last] on a pending delete whose staged file is there and is
    moved back. *)
Lemma undo_last_success
    (E : Env) (w : World) (a : App) (f orig bp bytes rel : string) :
  last_action a = Some (Delete orig bp) → folder a = Some f →
  fs w !! bp = Some bytes →
  mv_ok E bp (restore_dest (fs w) (dirs w) f orig) = true →
  restore_dest (fs w) (dirs w) f orig = f // rel →
  undo_last E w a
  = show_current E
      (moved bp (<[f // rel := bytes]> (delete bp (fs w)))
         (mkdir_parents (Paths.parent (f // orig)) w))
      (set_index (Z.max (Z.min (index a) (len a)) 0)
         (set_files_order
            (list_insert_at (Z.max (Z.min (index a) (len a)) 0) rel
               (files_order a))
            (set_last_action None a))).
Proof.
  intros Ha Hf Hbp Hmv Hdest. unfold undo_last. rewrite Ha.
  assert (path_exists (fs w) (dirs w) bp = true) as ->
    by (apply path_exists_true; eauto).
  cbn [negb folder set_last_action]. rewrite Hf.
  unfold mkdir_parents, set_dirs. cbn [fs dirs].
  rewrite restore_dest_mkdir.
  unfold fs_move. rewrite Hbp, Hmv, Hdest, relative_to_join. done.
Qed.

(** C4, as amended.  Let the entry on display be deleted with a staging
    move that succeeds, let an entry that loads follow it, and let the
    move back be carried out.  Then [undo_last] right after
    [request_delete] puts the file back at its original path with its
    bytes, the files being exactly those left by the commit of the earlier
    action, and the order and the cursor are those before the delete. *)
Theorem delete_undo_restores
    (E : Env) (w : World) (a : App) (p f rel bytes : string) (m : FS) :
  current_path a = Some p → folder a = Some f →
  files_order a !! Z.to_nat (index a) = Some rel →
  fs (commit_pending_delete E w a).1 !! p = Some bytes →
  decodes E bytes = true →
  fs_move E p
    (backup_target (fs (commit_pending_delete E w a).1)
       (dirs (commit_pending_delete E w a).1) f rel)
    (fs (commit_pending_delete E w a).1) = Some m →
  shows E m (request_delete_step E w a).1.2 = true →
  mv_ok E
    (backup_target (fs (commit_pending_delete E w a).1)
       (dirs (commit_pending_delete E w a).1) f rel) p
  = true →
  fs (undo_last E (request_delete E w a).1 (request_delete E w a).2).1
  = fs (commit_pending_delete E w a).1
  ∧ fs (undo_last E (request_delete E w a).1 (request_delete E w a).2).1
      !! (f // rel) = Some bytes
  ∧ files_order
      (undo_last E (request_delete E w a).1 (request_delete E w a).2).2
    = files_order a
  ∧ index (undo_last E (request_delete E w a).1 (request_delete E w a).2).2
    = index a
  ∧ last_action
      (undo_last E (request_delete E w a).1 (request_delete E w a).2).2
    = None.
Proof.
  intros Hp Hf Hrel Hbytes Hdec Hmv Hshows Hback.
  pose proof (current_path_Some a p Hp) as (f' & rel' & Hf' & Hi & Hrel' & ->).
  assert (f' = f) as -> by congruence.
  assert (rel' = rel) as -> by congruence.
  set (wc := (commit_pending_delete E w a).1) in *.
  set (target := backup_target (fs wc) (dirs wc) f rel) in *.
  rewrite (request_delete_step_success E w a _ f rel m) in Hshows by done.
  unfold request_delete.
  rewrite (request_delete_step_success E w a _ f rel m) by done.
  fold wc target in Hshows |- *. cbn [fst snd] in Hshows |- *.
  set (w1 := moved (f // rel) m _).
  set (a1 := set_last_action (Some (Delete rel target)) _) in *.
  (* the refresh after the delete shows the next entry *)
  unfold shows in Hshows.
  destruct (current_path a1) as [p1|] eqn:Hp1; [|done].
  apply negb_true_iff in Hshows.
  rewrite (show_current_shows E w1 a1 p1 Hp1 Hshows).
  cbn [fst snd].
  (* the staged file and the free original path *)
  assert (fs wc !! target = None) as Htarget.
  { pose proof (unique_name_free (fs wc) (dirs wc) (backup_dir f)
                  (Paths.name rel)) as Hfree.
    by apply path_exists_false in Hfree as [? _]. }
  assert (m = <[target := bytes]> (delete (f // rel) (fs wc))) as Hm.
  { unfold fs_move in Hmv. rewrite Hbytes in Hmv.
    destruct (mv_ok E (f // rel) target); [|done]. by injection Hmv. }
  assert (f // rel ≠ target) as Hne by congruence.
  assert (restore_dest (fs (display p1 w1 a1)) (dirs (display p1 w1 a1))
            f rel = f // rel) as Hdest.
  { unfold restore_dest. rewrite (proj2 (path_exists_false _ _ _)); [done|].
    split.
    - simpl. rewrite Hm, lookup_insert_ne, lookup_delete_eq by done. done.
    - simpl. apply not_elem_of_difference. right. by apply elem_of_singleton. }
  (* the undo *)
  rewrite (undo_last_success E (display p1 w1 a1) a1 f rel target bytes rel);
    [|done|done| |by rewrite Hdest|done].
  2: { simpl. by rewrite Hm, lookup_insert_eq. }
  assert (<[f // rel := bytes]> (delete target (fs (display p1 w1 a1)))
          = fs wc) as ->.
  { simpl. rewrite Hm. by apply move_back_map. }
  (* the refresh after the undo shows the restored entry *)
  assert (Z.max (Z.min (index a1) (len a1)) 0 = index a) as ->.
  { unfold len. simpl. rewrite length_delete by eauto.
    unfold len in Hi. lia. }
  assert (list_insert_at (index a) rel (files_order a1) = files_order a)
    as -> by (simpl; apply list_insert_at_delete; [lia|done]).
  match goal with |- context [show_current E ?w2 ?a2] =>
    rewrite (show_current_shows E w2 a2 (f // rel)) end.
  - simpl. by split_and!.
  - rewrite <- Hp. by apply current_path_ext.
  - simpl. unfold pix_is_null. by rewrite Hbytes, Hdec.
Qed.

Lemma delete_undo_restores_witness :
  current_path Sessions.loaded_t.2 = Some "t/3.jpg"
  ∧ fs_move Sessions.E_ok "t/3.jpg"
      (backup_target
         (fs (commit_pending_delete Sessions.E_ok Sessions.loaded_t.1
                Sessions.loaded_t.2).1)
         (dirs (commit_pending_delete Sessions.E_ok Sessions.loaded_t.1
                Sessions.loaded_t.2).1) "t" "3.jpg")
      (fs (commit_pending_delete Sessions.E_ok Sessions.loaded_t.1
             Sessions.loaded_t.2).1) = Some Sessions.disk_staged_t
  ∧ shows Sessions.E_ok Sessions.disk_staged_t
      (request_delete_step Sessions.E_ok Sessions.loaded_t.1
         Sessions.loaded_t.2).1.2 = true
  ∧ fs (undo_last Sessions.E_ok
          (request_delete Sessions.E_ok Sessions.loaded_t.1
             Sessions.loaded_t.2).1
          (request_delete Sessions.E_ok Sessions.loaded_t.1
             Sessions.loaded_t.2).2).1 !! ("t" // "3.jpg") = Some "3"
  ∧ files_order
      (undo_last Sessions.E_ok
         (request_delete Sessions.E_ok Sessions.loaded_t.1
            Sessions.loaded_t.2).1
         (request_delete Sessions.E_ok Sessions.loaded_t.1
            Sessions.loaded_t.2).2).2
    = files_order Sessions.loaded_t.2
  ∧ index
      (undo_last Sessions.E_ok
         (request_delete Sessions.E_ok Sessions.loaded_t.1
            Sessions.loaded_t.2).1
         (request_delete Sessions.E_ok Sessions.loaded_t.1
            Sessions.loaded_t.2).2).2
    = index Sessions.loaded_t.2.
Proof.
  assert (current_path Sessions.loaded_t.2 = Some "t/3.jpg") as Hp by by_vm.
  assert (folder Sessions.loaded_t.2 = Some "t") as Hf by by_vm.
  assert (files_order Sessions.loaded_t.2
            !! Z.to_nat (index Sessions.loaded_t.2) = Some "3.jpg")
    as Hrel by by_vm.
  assert (fs (commit_pending_delete Sessions.E_ok Sessions.loaded_t.1
                Sessions.loaded_t.2).1 !! "t/3.jpg" = Some "3")
    as Hbytes by by_vm.
  assert (fs_move Sessions.E_ok "t/3.jpg"
            (backup_target
               (fs (commit_pending_delete Sessions.E_ok Sessions.loaded_t.1
                      Sessions.loaded_t.2).1)
               (dirs (commit_pending_delete Sessions.E_ok Sessions.loaded_t.1
                      Sessions.loaded_t.2).1) "t" "3.jpg")
            (fs (commit_pending_delete Sessions.E_ok Sessions.loaded_t.1
                   Sessions.loaded_t.2).1) = Some Sessions.disk_staged_t)
    as Hmv by by_vm.
  assert (shows Sessions.E_ok Sessions.disk_staged_t
            (request_delete_step Sessions.E_ok Sessions.loaded_t.1
               Sessions.loaded_t.2).1.2 = true) as Hnext by by_vm.
  destruct (delete_undo_restores Sessions.E_ok Sessions.loaded_t.1
              Sessions.loaded_t.2 "t/3.jpg" "t" "3.jpg" "3"
              Sessions.disk_staged_t Hp Hf Hrel Hbytes eq_refl Hmv Hnext
              eq_refl)
    as (_ & Hfile & Ho & Hi & _).
  split_and!; [exact Hp | exact Hmv | exact Hnext | exact Hfile | exact Ho
              | exact Hi].
Defined.

(** C4, as stated, fails: in the folder [r] both calls succeed, but the
    refresh after the delete has dropped the corrupt [a.jpg], which the
    undo does not bring back. *)
Lemma delete_undo_loses_entry :
  ¬ Claimed.delete_undo_roundtrip Sessions.E_ok
      Sessions.loaded_r.1 Sessions.loaded_r.2.
Proof.
  intros H.
  destruct (H "r/c.png" "r" "c.png" "C" Sessions.disk_staged_r
              "c.png" "r/.pswipe_last_backup/c.png" Sessions.disk)
    as (_ & Ho & _);
    [by_vm | by_vm | by_vm | by_vm | by_vm | by_vm | by_vm | by_vm |].
  vm_compute in Ho. discriminate.
Qed.

(** ** Undo of a keep *)

Lemma show_current_keep_inv (E : Env) (w : World) (a : App) :
  keep_inv a → keep_inv (show_current E w a).2.
Proof.
  intros Ha prev Hprev.
  destruct (show_current_pending E w a) as [H|[H1 H2]]; [congruence|].
  rewrite H2. apply Ha. congruence.
Qed.

(** A pending keep always sits one position before the cursor. *)
Lemma keep_inv_preserved (E : Env) (w : World) (a : App) :
  keep_inv a →
  (∀ f, keep_inv (load_folder E f w a).2)
  ∧ keep_inv (request_keep E w a).2
  ∧ keep_inv (request_delete E w a).2
  ∧ keep_inv (undo_last E w a).2.
Proof.
  intros Ha. split_and!.
  - intros f. unfold load_folder. simpl.
    destruct (scan_images_recursive f (fs w)); [done|].
    apply show_current_keep_inv. by intros prev.
  - intros prev Hprev.
    destruct (request_keep_pending E w a) as [H|(H & Hi & H0)];
      [congruence|].
    rewrite Hi. rewrite H in Hprev. injection Hprev as <-. done.
  - intros prev Hprev.
    by destruct (request_delete_pending E w a _ Hprev) as (? & ? & _ & _ & ?).
  - intros prev Hprev. by rewrite undo_last_pending in Hprev.
Qed.

Lemma keep_inv_run (E : Env) (ops : list Op) :
  ∀ w a, keep_inv a → keep_inv (run E ops (w, a)).2.
Proof.
  induction ops as [|o ops IH]; intros w a Ha; [done|].
  unfold run. simpl. fold (run E ops).
  destruct (keep_inv_preserved E w a Ha) as (Hl & Hk & Hd & Hu).
  destruct o; simpl;
    [ specialize (Hl f); destruct (load_folder E f w a)
    | destruct (request_keep E w a)
    | destruct (request_delete E w a)
    | destruct (undo_last E w a) ]; by apply IH.
Qed.

(** The refresh leaves the cursor where it is, unless a finish dialog it
    opens is answered by a restart. *)
Lemma show_loop_index (E : Env) finish :
  (∀ w a, index (finish w a).2 = index a) →
  ∀ fuel w a, index (show_loop E finish fuel w a).2 = index a.
Proof.
  intros Hfin.
  assert (∀ a p, current_path a = Some p →
            index (clamp_top
                     (set_files_order (list_pop (index a) (files_order a)) a))
            = index a) as Hpop.
  { intros a p Hp. pose proof (pop_current a p Hp) as [_ Hlen].
    apply current_path_Some in Hp as (_ & _ & _ & Hi & _). unfold len in Hi.
    unfold clamp_top, len. simpl. case_decide; simpl; lia. }
  induction fuel as [|fuel IH]; intros w a; simpl.
  - destruct (current_path a) as [p|] eqn:Hp.
    + destruct (pix_is_null E (fs w) p); simpl; [by eapply Hpop | done].
    + destruct (finished_dialog_shown a); simpl; [done|]. by rewrite Hfin.
  - destruct (current_path a) as [p|] eqn:Hp.
    + destruct (pix_is_null E (fs w) p); simpl; [|done].
      rewrite IH. by eapply Hpop.
    + destruct (finished_dialog_shown a); simpl; [done|]. by rewrite Hfin.
Qed.

Lemma show_current_with_index (E : Env) (bs : list Button) :
  BtnShuffle ∉ bs →
  ∀ w a, index (show_current_with E bs w a).2 = index a.
Proof.
  assert (∀ w a,
            index (on_finished_list E (λ w2 a2, (w2, a2)) BtnExit w a).2
            = index a) as Hexit.
  { intros w a. unfold on_finished_list.
    pose proof (commit_app E (say (FinishDialog BtnExit) w) a) as Hc.
    destruct (commit_pending_delete E _ a) as [wc ac]. simpl in *.
    by subst ac. }
  induction bs as [|b bs IH]; intros Hbs w a; rewrite show_current_with_eq;
    apply show_loop_index; intros w1 a1; unfold finish_with;
    [apply Hexit|].
  apply not_elem_of_cons in Hbs as [Hb Hbs].
  destruct b; [done| |].
  - unfold on_finished_list.
    pose proof (commit_app E (say (FinishDialog BtnExit) (set_answers bs w1))
                  a1) as Hc.
    destruct (commit_pending_delete E _ a1) as [wc ac]. simpl in *.
    by subst ac.
  - unfold on_finished_list. by rewrite IH.
Qed.

Lemma show_current_index (E : Env) (w : World) (a : App) :
  BtnShuffle ∉ answers w → index (show_current E w a).2 = index a.
Proof. intros H. by apply show_current_with_index. Qed.

(** [undo_last] on a pending keep. *)
Lemma undo_keep_cursor (E : Env) (w : World) (a : App) (prev : Z) :
  last_action a = Some (Keep prev) → keep_inv a →
  (index a - 1)%Z = prev
  ∧ (0 <= prev)%Z
  ∧ undo_last E w a
    = show_current E w (set_index prev (set_last_action None a))
  ∧ last_action (undo_last E w a).2 = None
  ∧ (shows E (fs w) (set_index prev a) = true →
     (undo_last E w a).2 = set_index prev (set_last_action None a))
  ∧ (BtnShuffle ∉ answers w →
     index (undo_last E w a).2 = prev
     ∧ index (undo_last E w a).2 = (index a - 1)%Z
     ∧ (0 <= index (undo_last E w a).2)%Z).
Proof.
  intros Ha Hinv. destruct (Hinv prev Ha) as [H0 Hi].
  assert (undo_last E w a
          = show_current E w (set_index prev (set_last_action None a)))
    as Hundo.
  { unfold undo_last. rewrite Ha. simpl.
    rewrite decide_True by lia. do 2 f_equal. lia. }
  split_and!; [lia | done | done | apply undo_last_pending | |].
  - intros Hshows. rewrite Hundo. unfold shows in Hshows.
    rewrite (current_path_ext _ (set_index prev (set_last_action None a)))
      in Hshows by done.
    destruct (current_path _) as [p|] eqn:Hp; [|done].
    apply negb_true_iff in Hshows.
    by rewrite (show_current_shows E w _ p Hp Hshows).
  - intros Hans. rewrite Hundo, show_current_index by done. simpl. lia.
Qed.


(** C7.  In a session where the pending keep sits one position before the
    cursor, which is every session the window reaches (lemma
    [keep_inv_run]), [undo_last] sets the cursor to the prior cursor of the
    keep, that is one position back and not below 0, and clears the pending
    action.  It then refreshes the display, which leaves the cursor there:
    the cursor the call returns with is the prior one, as long as the
    operator does not answer a finish dialog opened by that refresh with a
    restart, the finish transition that starts over at 0. *)
Theorem undo_keep_effect (E : Env) (w : World) (a : App) (prev : Z) :
  last_action a = Some (Keep prev) → keep_inv a →
  (index a - 1)%Z = prev
  ∧ (0 <= prev)%Z
  ∧ undo_last E w a
    = show_current E w (set_index prev (set_last_action None a))
  ∧ last_action (undo_last E w a).2 = None
  ∧ (shows E (fs w) (set_index prev a) = true →
     (undo_last E w a).2 = set_index prev (set_last_action None a))
  ∧ (BtnShuffle ∉ answers w →
     index (undo_last E w a).2 = prev
     ∧ index (undo_last E w a).2 = (index a - 1)%Z
     ∧ (0 <= index (undo_last E w a).2)%Z).
Proof. apply undo_keep_cursor. Qed.

Lemma undo_keep_effect_witness :
  last_action Sessions.kept_twice_quiet.2 = Some (Keep 1)
  ∧ keep_inv Sessions.kept_twice_quiet.2
  ∧ (BtnShuffle ∉ answers Sessions.kept_twice_quiet.1)
  ∧ index (undo_last Sessions.E_ok Sessions.kept_twice_quiet.1
             Sessions.kept_twice_quiet.2).2 = 1%Z.
Proof.
  assert (last_action Sessions.kept_twice_quiet.2 = Some (Keep 1)) as Ha
    by by_vm.
  assert (keep_inv Sessions.kept_twice_quiet.2) as Hinv.
  { apply (keep_inv_run Sessions.E_ok _ (Sessions.world0 []) init).
    intros prev Hprev. discriminate Hprev. }
  assert (BtnShuffle ∉ answers Sessions.kept_twice_quiet.1) as Hans.
  { assert (answers Sessions.kept_twice_quiet.1 = []) as -> by by_vm.
    apply not_elem_of_nil. }
  destruct (undo_keep_effect Sessions.E_ok Sessions.kept_twice_quiet.1
              Sessions.kept_twice_quiet.2 1 Ha Hinv)
    as (_ & _ & _ & _ & _ & H).
  split_and!; [exact Ha | exact Hinv | exact Hans | exact (proj1 (H Hans))].
Defined.

(** So the sentence of the specification holds in every session the
    window reaches, no restart being answered during the call. *)
Lemma undo_keep_reachable (E : Env) (ops : list Op) (w0 : World) :
  BtnShuffle ∉ answers (run E ops (w0, init)).1 →
  Claimed.undo_keep_outcome E (run E ops (w0, init)).1
    (run E ops (w0, init)).2.
Proof.
  intros Hans prev Ha.
  assert (keep_inv (run E ops (w0, init)).2) as Hinv
    by (apply keep_inv_run; by intros p).
  destruct (undo_keep_cursor E (run E ops (w0, init)).1 _ prev Ha Hinv)
    as (_ & _ & _ & Hl & _ & H).
  destruct (H Hans) as (H1 & H2 & H3). simpl. by split_and!.
Qed.

(** With a restart answered during the call the cursor ends at 0: after
    two keeps in [t] the operator opens [q], which holds no image, so that
    the entries are now looked up in [q]; the undo steps back to position
    1, the refresh finds nothing to load there, reaches the end of the
    list, and the restart the operator asks for sets the cursor to 0. *)
Example undo_keep_then_restart :
  last_action Sessions.kept_twice_then_q.2 = Some (Keep 1)
  ∧ answers Sessions.kept_twice_then_q.1 = [BtnShuffle]
  ∧ index (undo_last Sessions.E_ok Sessions.kept_twice_then_q.1
             Sessions.kept_twice_then_q.2).2 = 0%Z.
Proof. split_and!; by_vm. Qed.

(** ** The scenarios of the specification, run on the folder [t] *)

(** Scenario A: three files; the delete stages the first entry and leaves
    two, cursor at 0; the undo brings the file and the three entries back. *)
Example scenario_delete_undo :
  files_order Sessions.loaded_t.2 = ["3.jpg"; "1.jpg"; "2.jpg"]
  ∧ files_order Sessions.staged_t.2 = ["1.jpg"; "2.jpg"]
  ∧ index Sessions.staged_t.2 = 0%Z
  ∧ fs Sessions.staged_t.1 !! "t/3.jpg" = None
  ∧ fs Sessions.staged_t.1 !! "t/.pswipe_last_backup/3.jpg" = Some "3"
  ∧ files_order (run Sessions.E_ok [OpUndo] Sessions.staged_t).2
    = ["3.jpg"; "1.jpg"; "2.jpg"]
  ∧ index (run Sessions.E_ok [OpUndo] Sessions.staged_t).2 = 0%Z
  ∧ fs (run Sessions.E_ok [OpUndo] Sessions.staged_t).1 = Sessions.disk.
Proof. split_and!; by_vm. Qed.

(** Scenario C: two deletes in a row; the first staged file is discarded,
    the second is pending, and the order has lost two entries. *)
Example scenario_delete_delete :
  files_order (run Sessions.E_ok [OpDelete] Sessions.staged_t).2 = ["2.jpg"]
  ∧ last_action (run Sessions.E_ok [OpDelete] Sessions.staged_t).2
    = Some (Delete "1.jpg" "t/.pswipe_last_backup/1.jpg")
  ∧ fs (run Sessions.E_ok [OpDelete] Sessions.staged_t).1
      !! "t/.pswipe_last_backup/3.jpg" = None
  ∧ fs (run Sessions.E_ok [OpDelete] Sessions.staged_t).1
      !! "t/.pswipe_last_backup/1.jpg" = Some "1".
Proof. split_and!; by_vm. Qed.

(** Scenario D: at the end of the list the restart rescans and starts
    again at 0 with an empty backup directory. *)
Example scenario_restart :
  files_order (run Sessions.E_ok [OpKeep] Sessions.kept_twice).2
  = ["3.jpg"; "1.jpg"; "2.jpg"]
  ∧ index (run Sessions.E_ok [OpKeep] Sessions.kept_twice).2 = 0%Z
  ∧ last_action (run Sessions.E_ok [OpKeep] Sessions.kept_twice).2 = None
  ∧ ui (run Sessions.E_ok [OpKeep] Sessions.kept_twice).1 !! 2%nat
    = Some (FinishDialog BtnShuffle).
Proof. split_and!; by_vm. Qed.

(** ** No order without a folder *)

Lemma show_current_folder_inv (E : Env) (w : World) (a : App) :
  folder_inv a → folder_inv (show_current E w a).2.
Proof.
  intros Ha Hn. destruct (show_current_folder E w a) as [Hf Ho].
  rewrite Hf in Hn. rewrite Ho by done. by apply Ha.
Qed.

Lemma folder_inv_Some (E : Env) (w : World) (a : App) (f : string) :
  folder a = Some f → folder_inv (show_current E w a).2.
Proof. intros Hf. apply show_current_folder_inv. intros Hn. congruence. Qed.

Lemma folder_inv_preserved (E : Env) (w : World) (a : App) :
  folder_inv a →
  (∀ f, folder_inv (load_folder E f w a).2)
  ∧ folder_inv (request_keep E w a).2
  ∧ folder_inv (request_delete E w a).2
  ∧ folder_inv (undo_last E w a).2.
Proof.
  intros Ha. split_and!.
  - intros f. unfold load_folder. simpl.
    destruct (scan_images_recursive f (fs w)); [done|].
    by apply (folder_inv_Some _ _ _ f).
  - unfold request_keep.
    pose proof (commit_app E w a) as Hc.
    destruct (commit_pending_delete E w a) as [wc ac]. simpl in Hc. subst ac.
    destruct (current_path _); [|done].
    unfold advance. by apply show_current_folder_inv.
  - unfold request_delete, request_delete_step.
    pose proof (commit_app E w a) as Hc.
    destruct (commit_pending_delete E w a) as [wc ac]. simpl in Hc. subst ac.
    destruct (current_path _); [|done].
    destruct (folder (set_last_action None a)) as [f|] eqn:Hf; [|done].
    destruct (fs_move _ _ _ _); [|done].
    apply (folder_inv_Some _ _ _ f). unfold clamp_top. by case_decide.
  - unfold undo_last.
    destruct (last_action a) as [[prev|orig bp]|]; [| |done].
    + apply show_current_folder_inv. by case_decide.
    + destruct (negb _); [done|]. simpl.
      destruct (folder a) as [f|] eqn:Hf; [|done].
      destruct (fs_move _ _ _ _); [|done].
      destruct (Paths.relative_to _ _); [|done].
      by apply (folder_inv_Some _ _ _ f).
Qed.

Lemma folder_inv_run (E : Env) (ops : list Op) :
  ∀ w a, folder_inv a → folder_inv (run E ops (w, a)).2.
Proof.
  induction ops as [|o ops IH]; intros w a Ha; [done|].
  unfold run. simpl. fold (run E ops).
  destruct (folder_inv_preserved E w a Ha) as (Hl & Hk & Hd & Hu).
  destruct o; simpl;
    [ specialize (Hl f); destruct (load_folder E f w a)
    | destruct (request_keep E w a)
    | destruct (request_delete E w a)
    | destruct (undo_last E w a) ]; by apply IH.
Qed.

(** ** Every session the operator can reach *)

(** X18.  Whatever folders are opened and whatever is kept, deleted and
    undone from the freshly created window, the cursor is within bounds, a
    pending keep sits one position before the cursor, and there is no order
    without a folder. *)
Lemma reachable_invariants (E : Env) (ops : list Op) (w : World) :
  cursor_inv (run E ops (w, init)).2
  ∧ keep_inv (run E ops (w, init)).2
  ∧ folder_inv (run E ops (w, init)).2.
Proof.
  split_and!.
  - apply cursor_inv_run, cursor_inv_init.
  - apply keep_inv_run. by intros prev.
  - by apply folder_inv_run.
Qed.

(** * Further properties of the code *)

(** ** Scanning *)

Lemma strip_prefix_inv (pre s r : string) :
  Paths.strip_prefix pre s = Some r → s = pre +:+ r.
Proof.
  revert s. induction pre as [|c pre IH]; intros [|c' s] H; simpl in H;
    try done.
  - by injection H as <-.
  - by injection H as <-.
  - case_decide as Hc; [|done]. subst c'.
    rewrite string_app_cons. f_equal. by apply IH.
Qed.

Lemma relative_to_inv (p root rel : string) :
  Paths.relative_to p root = Some rel → p = root // rel.
Proof.
  unfold Paths.relative_to, Paths.join. intros H.
  apply strip_prefix_inv in H. by rewrite string_app_assoc in H.
Qed.

Lemma list_map_fmap {A B} (f : A → B) (l : list A) : map f l = f <$> l.
Proof. induction l as [|x l IH]; simpl; [done | by rewrite IH]. Qed.

Lemma elem_of_keys (m : FS) (p : string) :
  p ∈ map fst (map_to_list m) ↔ is_Some (m !! p).
Proof.
  rewrite list_map_fmap, list_elem_of_fmap. split.
  - intros ([k x] & -> & H). apply elem_of_map_to_list in H. eauto.
  - intros [x H]. exists (p, x). split; [done|].
    by apply elem_of_map_to_list.
Qed.

Lemma NoDup_keys (m : FS) : NoDup (map fst (map_to_list m)).
Proof. rewrite list_map_fmap. apply NoDup_fst_map_to_list. Qed.

(** The entries the scan keeps of the file at [p]. *)
Lemma scan_elem (root : string) (m : FS) (rel : string) :
  rel ∈ scan_images_recursive root m ↔
  is_Some (m !! (root // rel))
  ∧ Paths.is_under (root // BACKUP_DIRNAME) (root // rel) = false
  ∧ Paths.lower (Paths.suffix (root // rel)) ∈ IMG_EXT.
Proof.
  unfold scan_images_recursive, rglob.
  rewrite list_elem_of_omap. split.
  - intros (p & Hp & Hg).
    apply list_elem_of_filter in Hp as [Hrel Hp].
    apply elem_of_keys in Hp.
    destruct (Paths.is_under _ p) eqn:Hb; [done|].
    case_bool_decide as Hext; [|done].
    apply relative_to_inv in Hg as ->. done.
  - intros (Hp & Hb & Hext). exists (root // rel). split.
    + apply list_elem_of_filter. split.
      * rewrite relative_to_join. eauto.
      * by apply elem_of_keys.
    + rewrite Hb. rewrite bool_decide_eq_true_2 by done.
      apply relative_to_join.
Qed.

Lemma scan_images_recursive_nodup (root : string) (m : FS) :
  NoDup (scan_images_recursive root m).
Proof.
  unfold scan_images_recursive, rglob.
  assert (∀ (g : string → option string) l,
            (∀ x y z, g x = Some z → g y = Some z → x = y) →
            NoDup l → NoDup (omap g l)) as Homap.
  { intros g l Hinj. induction 1 as [|x l Hx Hl IH]; simpl; [constructor|].
    destruct (g x) as [z|] eqn:Hgx; [|done].
    constructor; [|done].
    rewrite list_elem_of_omap. intros (y & Hy & Hgy).
    by rewrite (Hinj x y z Hgx Hgy) in Hx. }
  apply Homap.
  - intros x y z Hx Hy.
    destruct (Paths.is_under _ x); [done|].
    destruct (Paths.is_under _ y); [done|].
    repeat case_bool_decide; try done.
    apply relative_to_inv in Hx, Hy. congruence.
  - apply NoDup_filter, NoDup_keys.
Qed.

(** X1.  [scan_images_recursive] lists a relative path exactly when the
    file it names under the root exists, does not lie under the backup
    directory and has one of the image extensions, whatever the case of its
    letters; and it lists no path twice. *)
Theorem scan_images_recursive_spec (root : string) (m : FS) :
  (∀ rel, rel ∈ scan_images_recursive root m ↔
          is_Some (m !! (root // rel))
          ∧ Paths.is_under (root // BACKUP_DIRNAME) (root // rel) = false
          ∧ Paths.lower (Paths.suffix (root // rel)) ∈ IMG_EXT)
  ∧ NoDup (scan_images_recursive root m).
Proof. split; [apply scan_elem | apply scan_images_recursive_nodup]. Qed.

(** ** Fresh names *)

Lemma unique_name_inside (m : FS) (ds : gset string) (d b : string) :
  ∃ n, unique_name m ds d b = d // n.
Proof.
  destruct (path_exists m ds (d // b)) eqn:Hb.
  - destruct (unique_name_first_free m ds d b Hb) as (k & _ & -> & _).
    by eexists.
  - rewrite unique_name_no_collision by done. by eexists.
Qed.

(** Names without a separator. *)
Lemma rsplit_cons_None (c : ascii) (s : string) :
  Paths.rsplit (String c s) = None ↔ c ≠ Paths.slash ∧ Paths.rsplit s = None.
Proof.
  simpl. destruct (Paths.rsplit s) as [[d n]|].
  - split; [done|]. by intros [_ ?].
  - case_decide; split; try done. by intros [? _].
Qed.

Lemma rsplit_app_None (s t : string) :
  Paths.rsplit s = None → Paths.rsplit t = None →
  Paths.rsplit (s +:+ t) = None.
Proof.
  intros Hs Ht. induction s as [|c s IH]; [done|].
  rewrite string_app_cons. apply rsplit_cons_None in Hs as [Hc Hs].
  apply rsplit_cons_None. split; [done|]. by apply IH.
Qed.

Lemma rsplit_substring_None (s : string) (i n : nat) :
  Paths.rsplit s = None → Paths.rsplit (String.substring i n s) = None.
Proof.
  revert i n. induction s as [|c s IH]; intros i n Hs.
  - by destruct i, n.
  - apply rsplit_cons_None in Hs as [Hc Hs].
    destruct i as [|i]; [destruct n as [|n]|]; simpl String.substring.
    + done.
    + apply rsplit_cons_None. split; [done|]. by apply IH.
    + by apply IH.
Qed.

Lemma splitext_None (b : string) :
  Paths.rsplit b = None →
  Paths.rsplit (Paths.splitext b).1 = None
  ∧ Paths.rsplit (Paths.splitext b).2 = None.
Proof.
  intros Hb. unfold Paths.splitext.
  case_decide; [|done]. case_match; [done|].
  simpl. split; by apply rsplit_substring_None.
Qed.

Lemma pretty_N_go_None (x : N) (s : string) :
  Paths.rsplit s = None → Paths.rsplit (pretty_N_go x s) = None.
Proof.
  revert s. induction (N.lt_wf_0 x) as [x _ IH]; intros s Hs.
  destruct (decide (x = 0)%N) as [->|Hx]; [by rewrite pretty_N_go_0|].
  rewrite pretty_N_go_step by lia.
  apply IH; [apply N.div_lt; lia|].
  apply rsplit_cons_None. split; [|done].
  unfold pretty_N_char. by repeat case_match.
Qed.

Lemma pretty_nat_None (n : nat) : Paths.rsplit (pretty n) = None.
Proof.
  unfold pretty, pretty_nat, pretty, pretty_N.
  case_decide; [done|]. by apply pretty_N_go_None.
Qed.

Lemma pswipe_name_None (stem suf : string) (i : nat) :
  Paths.rsplit stem = None → Paths.rsplit suf = None →
  Paths.rsplit (pswipe_name stem suf i) = None.
Proof.
  intros Hstem Hsuf. unfold pswipe_name.
  repeat apply rsplit_app_None; try done. apply pretty_nat_None.
Qed.

(** The last component of a path holds no separator. *)
Lemma name_None (p : string) : Paths.rsplit (Paths.name p) = None.
Proof.
  unfold Paths.name.
  destruct (Paths.rsplit p) as [[d n]|] eqn:Hp; [|done].
  revert d Hp. induction p as [|c p IH]; intros d Hp; simpl in Hp; [done|].
  destruct (Paths.rsplit p) as [[d' n']|] eqn:Hp'.
  - injection Hp as _ <-. by eapply IH.
  - case_decide; [|done]. by injection Hp as _ <-.
Qed.

(** A base name without a separator gives a path directly in the target
    directory. *)
Lemma unique_name_parent (m : FS) (ds : gset string) (d b : string) :
  Paths.rsplit b = None → Paths.parent (unique_name m ds d b) = d.
Proof.
  intros Hb. destruct (path_exists m ds (d // b)) eqn:Hex.
  - destruct (unique_name_first_free m ds d b Hex) as (k & _ & -> & _).
    destruct (splitext_None b Hb) as [Hstem Hsuf].
    by apply parent_join, pswipe_name_None.
  - rewrite unique_name_no_collision by done. by apply parent_join.
Qed.

(** The staging name lies directly in the backup directory. *)
Lemma backup_target_parent (m : FS) (ds : gset string) (f rel : string) :
  Paths.parent (backup_target m ds f rel) = backup_dir f.
Proof. apply unique_name_parent, name_None. Qed.

(** X2.  Whatever files and directories there are, [unique_name] returns,
    and the path it returns is the target directory joined with a name
    that neither a file nor a directory bears; it is the base name itself
    when nothing bears that, and it lies directly in the target directory
    when the base name holds no separator. *)
Theorem unique_name_fresh (m : FS) (ds : gset string) (d b : string) :
  (∃ n, unique_name m ds d b = d // n)
  ∧ m !! unique_name m ds d b = None
  ∧ (unique_name m ds d b ∉ ds)
  ∧ (m !! (d // b) = None → (d // b ∉ ds) → unique_name m ds d b = d // b)
  ∧ (Paths.rsplit b = None → Paths.parent (unique_name m ds d b) = d).
Proof.
  pose proof (unique_name_free m ds d b) as Hfree.
  apply path_exists_false in Hfree as [Hfile Hdir].
  split_and!.
  - apply unique_name_inside.
  - done.
  - done.
  - intros H1 H2. by apply unique_name_no_collision, path_exists_false.
  - apply unique_name_parent.
Qed.

Lemma is_under_join (d n : string) : Paths.is_under d (d // n) = true.
Proof.
  unfold Paths.is_under. rewrite relative_to_join.
  apply bool_decide_eq_true. eauto.
Qed.

(** X3.  Once a file is staged the scan of the folder no longer lists it,
    and lists every other entry as before: a staged file is out of sight
    of a rescan, and staging hides nothing else. *)
Theorem scan_after_staging
    (E : Env) (m m' : FS) (ds : gset string) (f rel : string) :
  fs_move E (f // rel) (backup_target m ds f rel) m = Some m' →
  (rel ∉ scan_images_recursive f m')
  ∧ ∀ r, r ≠ rel →
         (r ∈ scan_images_recursive f m' ↔ r ∈ scan_images_recursive f m).
Proof.
  unfold fs_move, backup_target, backup_dir. intros Hmv.
  destruct (m !! (f // rel)) as [bytes|] eqn:Hp; [|done].
  destruct (mv_ok E _ _); [|done]. injection Hmv as <-.
  destruct (unique_name_inside m ds (f // BACKUP_DIRNAME) (Paths.name rel))
    as [n Hn].
  pose proof (unique_name_free m ds (f // BACKUP_DIRNAME) (Paths.name rel))
    as Hfree.
  apply path_exists_false in Hfree as [Hfree _]. rewrite Hn in Hfree |- *.
  assert (f // rel ≠ f // BACKUP_DIRNAME // n) as Hne by congruence.
  split.
  - rewrite scan_elem. intros ([x Hx] & _).
    by rewrite lookup_insert_ne, lookup_delete_eq in Hx.
  - intros r Hr. rewrite !scan_elem.
    destruct (decide (f // r = f // BACKUP_DIRNAME // n)) as [Heq|Hnt].
    + rewrite Heq, is_under_join. split; intros (_ & ? & _); done.
    + rewrite lookup_insert_ne by done.
      rewrite lookup_delete_ne; [done|].
      intros Heq. by apply join_inj in Heq.
Qed.

Lemma scan_after_staging_witness :
  fs_move Sessions.E_ok ("t" // "3.jpg")
    (backup_target Sessions.disk Sessions.disk_dirs "t" "3.jpg")
    Sessions.disk
  = Some Sessions.disk_staged_t
  ∧ ("3.jpg" ∉ scan_images_recursive "t" Sessions.disk_staged_t).
Proof.
  assert (fs_move Sessions.E_ok ("t" // "3.jpg")
            (backup_target Sessions.disk Sessions.disk_dirs "t" "3.jpg")
            Sessions.disk
          = Some Sessions.disk_staged_t) as Hmv by by_vm.
  split; [exact Hmv|].
  exact (proj1 (scan_after_staging Sessions.E_ok Sessions.disk
                  Sessions.disk_staged_t Sessions.disk_dirs "t" "3.jpg"
                  Hmv)).
Defined.

(** ** [_clear_backup_dir] *)

Lemma clear_fold_lookup (E : Env) (d k : string) (l : list string) :
  ∀ m : FS,
    foldl (λ m p, if decide (Paths.parent p = d) then try_unlink E p m
                  else m) m l !! k
    = if bool_decide (k ∈ l ∧ Paths.parent k = d ∧ rm_ok E k = true)
      then None else m !! k.
Proof.
  induction l as [|p l IH]; intros m; cbn [foldl].
  - rewrite bool_decide_eq_false_2; [done|]. intros [H _].
    by apply elem_of_nil in H.
  - rewrite IH. unfold try_unlink.
    destruct (decide (Paths.parent k = d ∧ rm_ok E k = true)) as [HQ|HQ].
    + destruct (decide (k ∈ l)) as [Hl|Hl].
      * rewrite (bool_decide_eq_true_2 (k ∈ l ∧ _)) by done.
        rewrite bool_decide_eq_true_2; [done|].
        rewrite elem_of_cons. tauto.
      * rewrite (bool_decide_eq_false_2 (k ∈ l ∧ _)) by tauto.
        destruct (decide (k = p)) as [->|Hkp].
        -- rewrite bool_decide_eq_true_2 by (rewrite elem_of_cons; tauto).
           destruct HQ as [Hd Hrm]. rewrite decide_True, Hrm by done.
           apply lookup_delete_eq.
        -- rewrite bool_decide_eq_false_2.
           ++ destruct (decide (Paths.parent p = d)); [|done].
              destruct (rm_ok E p); [|done].
              by rewrite lookup_delete_ne.
           ++ rewrite elem_of_cons. tauto.
    + rewrite (bool_decide_eq_false_2 (k ∈ l ∧ _)) by tauto.
      rewrite bool_decide_eq_false_2 by tauto.
      destruct (decide (Paths.parent p = d)) as [Hd|Hd]; [|done].
      destruct (rm_ok E p) eqn:Hrm; [|done].
      rewrite lookup_delete_ne; [done|]. intros ->. tauto.
Qed.

Lemma clear_backup_dir_lookup
    (E : Env) (w : World) (a : App) (f k : string) :
  folder a = Some f →
  fs (clear_backup_dir E w a) !! k
  = if bool_decide (Paths.parent k = backup_dir f ∧ rm_ok E k = true)
    then None else fs w !! k.
Proof.
  intros Hf. unfold clear_backup_dir. rewrite Hf. simpl.
  rewrite clear_fold_lookup.
  destruct (decide (Paths.parent k = backup_dir f ∧ rm_ok E k = true))
    as [HQ|HQ].
  - rewrite (bool_decide_eq_true_2 _ HQ).
    destruct (fs w !! k) eqn:Hk; [|by case_bool_decide].
    rewrite bool_decide_eq_true_2; [done|].
    split; [|done]. apply elem_of_keys. eauto.
  - rewrite !bool_decide_eq_false_2 by tauto. done.
Qed.

(** X4.  With a folder open, [_clear_backup_dir] removes the files that
    lie directly in the backup directory and that the operating system
    lets it unlink, and leaves every other file as it is: nothing outside
    the backup directory is touched, and a refused unlink is passed over. *)
Theorem clear_backup_dir_effect
    (E : Env) (w : World) (a : App) (f k : string) :
  folder a = Some f →
  fs (clear_backup_dir E w a) !! k
  = if bool_decide (Paths.parent k = backup_dir f ∧ rm_ok E k = true)
    then None else fs w !! k.
Proof. apply clear_backup_dir_lookup. Qed.

Lemma clear_backup_dir_effect_witness :
  folder Sessions.staged_t.2 = Some "t"
  ∧ fs (clear_backup_dir Sessions.E_ok Sessions.staged_t.1
          Sessions.staged_t.2) !! "t/.pswipe_last_backup/3.jpg" = None
  ∧ fs (clear_backup_dir Sessions.E_ok Sessions.staged_t.1
          Sessions.staged_t.2) !! "t/1.jpg" = Some "1".
Proof.
  assert (folder Sessions.staged_t.2 = Some "t") as Hf by by_vm.
  split_and!; [exact Hf | |];
    rewrite (clear_backup_dir_effect Sessions.E_ok Sessions.staged_t.1
               Sessions.staged_t.2 "t" _ Hf); by_vm.
Defined.

(** ** The refresh of the display, case by case *)

(** An induction principle that follows the calls of [show_current]: it
    shows an image, rests at the end of the list, pops an entry and calls
    itself, or opens the finish dialog, which exits, restarts the session
    and calls it, or is closed and calls it.  In the dialog cases [w'] is
    the world [w] with an answer taken. *)
Section ShowCurrentInd.
Variable E : Env.
Variable P : World → App → World * App → Prop.

Hypothesis P_show : ∀ w a p,
  current_path a = Some p → pix_is_null E (fs w) p = false →
  P w a (display p w a, a).
Hypothesis P_rest : ∀ w a,
  current_path a = None → finished_dialog_shown a = true → P w a (w, a).
Hypothesis P_pop : ∀ w a p r,
  current_path a = Some p → pix_is_null E (fs w) p = true →
  P w (clamp_top (set_files_order (list_pop (index a) (files_order a)) a)) r →
  P w a r.
Hypothesis P_overflow : ∀ w a p,
  current_path a = Some p → pix_is_null E (fs w) p = true →
  P w a
    (w, clamp_top (set_files_order (list_pop (index a) (files_order a)) a)).
Hypothesis P_exit : ∀ w a w',
  current_path a = None → finished_dialog_shown a = false →
  w' = set_answers (answers w') w →
  P w a
    (say WindowClosed
       (commit_pending_delete E (say (FinishDialog BtnExit) w')
          (set_finished_dialog_shown true a)).1,
     set_last_action None (set_finished_dialog_shown true a)).
Hypothesis P_no_folder : ∀ w a w',
  current_path a = None → finished_dialog_shown a = false →
  w' = set_answers (answers w') w → folder a = None →
  P w a
    ((commit_pending_delete E (say (FinishDialog BtnShuffle) w')
        (set_finished_dialog_shown true a)).1,
     set_last_action None (set_finished_dialog_shown true a)).
Hypothesis P_restart : ∀ w a w' f r,
  current_path a = None → finished_dialog_shown a = false →
  w' = set_answers (answers w') w → folder a = Some f →
  P (clear_backup_dir E
       (commit_pending_delete E (say (FinishDialog BtnShuffle) w')
          (set_finished_dialog_shown true a)).1
       (set_last_action None a))
    (set_finished_dialog_shown false
       (set_index 0
          (set_files_order
             (random_shuffle E (Z.lxor (path_hash E f) (now w))
                (scan_images_recursive f
                   (fs (commit_pending_delete E
                          (say (FinishDialog BtnShuffle) w')
                          (set_finished_dialog_shown true a)).1)))
             (set_last_action None a))))
    r →
  P w a r.
Hypothesis P_other : ∀ w a w' r,
  current_path a = None → finished_dialog_shown a = false →
  w' = set_answers (answers w') w →
  P (say (FinishDialog BtnOther) w') a r →
  P w a r.

Lemma show_loop_cases finish :
  (∀ w a, current_path a = None → finished_dialog_shown a = false →
          P w a (finish w (set_finished_dialog_shown true a))) →
  ∀ fuel w a, P w a (show_loop E finish fuel w a).
Proof.
  intros Hfin. induction fuel as [|fuel IH]; intros w a; simpl.
  - destruct (current_path a) as [p|] eqn:Hp.
    + destruct (pix_is_null E (fs w) p) eqn:Hn;
        [by eapply P_overflow | by apply P_show].
    + destruct (finished_dialog_shown a) eqn:Hs; [by apply P_rest|].
      by apply Hfin.
  - destruct (current_path a) as [p|] eqn:Hp.
    + destruct (pix_is_null E (fs w) p) eqn:Hn; [|by apply P_show].
      apply (P_pop w a p _ Hp Hn). apply IH.
    + destruct (finished_dialog_shown a) eqn:Hs; [by apply P_rest|].
      by apply Hfin.
Qed.

Lemma exit_eq show (w : World) (a : App) :
  on_finished_list E show BtnExit w a
  = (say WindowClosed
       (commit_pending_delete E (say (FinishDialog BtnExit) w) a).1,
     set_last_action None a).
Proof.
  unfold on_finished_list.
  pose proof (commit_app E (say (FinishDialog BtnExit) w) a) as Hc.
  destruct (commit_pending_delete E _ a) as [wc ac]. simpl in *. by subst.
Qed.

Lemma set_flag_twice (b c : bool) (a : App) :
  set_finished_dialog_shown b (set_finished_dialog_shown c a)
  = set_finished_dialog_shown b a.
Proof. done. Qed.

Lemma set_flag_id (a : App) :
  set_finished_dialog_shown (finished_dialog_shown a) a = a.
Proof. by destruct a. Qed.

Lemma show_current_with_cases (bs : list Button) :
  ∀ w a, P w a (show_current_with E bs w a).
Proof.
  induction bs as [|b bs IH]; intros w a; rewrite show_current_with_eq;
    apply show_loop_cases; intros w1 a1 Hp Hs; unfold finish_with.
  - rewrite exit_eq. apply P_exit; [done|done|by destruct w1].
  - destruct b.
    + unfold on_finished_list.
      pose proof (commit_app E (say (FinishDialog BtnShuffle)
                                  (set_answers bs w1))
                    (set_finished_dialog_shown true a1)) as Hc.
      pose proof (commit_ui E (say (FinishDialog BtnShuffle)
                                 (set_answers bs w1))
                    (set_finished_dialog_shown true a1)) as (_ & _ & Hnow).
      destruct (commit_pending_delete E _ _) as [wc ac] eqn:Hcommit.
      simpl in Hc, Hnow. subst ac.
      unfold reshuffle_and_restart. simpl.
      destruct (folder a1) as [f|] eqn:Hf.
      * apply (P_restart w1 a1 (set_answers bs w1) f); try done.
        rewrite Hcommit. simpl. rewrite Hnow.
        assert (clear_backup_dir E wc
                  (set_finished_dialog_shown false
                     (set_index 0
                        (set_files_order
                           (random_shuffle E
                              (Z.lxor (path_hash E f) (now w1))
                              (scan_images_recursive f (fs wc)))
                           (set_last_action None
                              (set_finished_dialog_shown true a1)))))
                = clear_backup_dir E wc (set_last_action None a1)) as ->
          by done.
        apply IH.
      * replace wc with (commit_pending_delete E
                           (say (FinishDialog BtnShuffle)
                              (set_answers bs w1))
                           (set_finished_dialog_shown true a1)).1
          by (by rewrite Hcommit).
        by apply P_no_folder.
    + rewrite exit_eq. by apply P_exit.
    + unfold on_finished_list. rewrite set_flag_twice.
      apply (P_other w1 a1 (set_answers bs w1)); try done.
      rewrite <- Hs at 1. rewrite set_flag_id. apply IH.
Qed.

Lemma show_current_cases (w : World) (a : App) :
  P w a (show_current E w a).
Proof. apply show_current_with_cases. Qed.

End ShowCurrentInd.

(** ** What the refresh drops *)

Lemma current_path_middle (a : App) (f : string) (pre tl : list string)
    (y : string) :
  folder a = Some f → files_order a = (pre ++ y :: tl)%list →
  index a = Z.of_nat (length pre) →
  current_path a = Some (f // y).
Proof.
  intros Hf Ho Hi.
  destruct (current_path_in_range a f Hf) as (rel & Hrel & ->).
  { unfold len. rewrite Hi, Ho, length_app. simpl. lia. }
  rewrite Hi, Nat2Z.id, Ho, list_lookup_middle in Hrel by done.
  by injection Hrel as <-.
Qed.

Lemma show_loop_skips (E : Env) finish (w : World) (f x : string)
    (pre rest : list string) :
  pix_is_null E (fs w) (f // x) = false →
  ∀ dropped a fuel,
    (length dropped ≤ fuel)%nat →
    folder a = Some f →
    files_order a = (pre ++ dropped ++ x :: rest)%list →
    index a = Z.of_nat (length pre) →
    Forall (λ r, pix_is_null E (fs w) (f // r) = true) dropped →
    show_loop E finish fuel w a
    = (display (f // x) w (set_files_order (pre ++ x :: rest) a),
       set_files_order (pre ++ x :: rest) a).
Proof.
  intros Hx. induction dropped as [|r dropped IH];
    intros a fuel Hfuel Hf Ho Hi Hnull.
  - simpl in Ho.
    rewrite (show_loop_shows E finish fuel w a (f // x));
      [|by eapply current_path_middle|done].
    rewrite <- Ho. by destruct a.
  - apply Forall_cons in Hnull as [Hr Hnull].
    destruct fuel as [|fuel]; [simpl in Hfuel; lia|].
    simpl. rewrite (current_path_middle a f pre _ r Hf Ho Hi), Hr.
    assert (clamp_top
              (set_files_order (list_pop (index a) (files_order a)) a)
            = set_files_order (pre ++ dropped ++ x :: rest) a) as ->.
    { assert (list_pop (index a) (files_order a)
              = (pre ++ dropped ++ x :: rest)%list) as ->.
      { unfold list_pop. rewrite decide_True.
        - rewrite Hi, Nat2Z.id, Ho. apply delete_middle.
        - rewrite Hi, Ho, length_app. simpl. lia. }
      apply clamp_top_id. unfold len. simpl.
      rewrite Hi, !length_app. simpl. lia. }
    rewrite (IH (set_files_order (pre ++ dropped ++ x :: rest) a) fuel);
      try done.
    simpl in Hfuel. lia.
Qed.

(** X5.  When the entries from the cursor on are some that Qt cannot load
    followed by one it can, and the interpreter has room for one nested
    call for each of the former, [show_current] drops exactly those
    unreadable entries, shows that image, and leaves the entries before the
    cursor, the entries after the image, the cursor, the pending action and
    the files as they were. *)
Theorem show_current_skips_unreadable
    (E : Env) (w : World) (a : App) (f x : string)
    (pre dropped rest : list string) :
  folder a = Some f →
  files_order a = (pre ++ dropped ++ x :: rest)%list →
  index a = Z.of_nat (length pre) →
  Forall (λ r, pix_is_null E (fs w) (f // r) = true) dropped →
  pix_is_null E (fs w) (f // x) = false →
  (length dropped ≤ recursion_room E)%nat →
  show_current E w a
  = (display (f // x) w (set_files_order (pre ++ x :: rest) a),
     set_files_order (pre ++ x :: rest) a).
Proof.
  intros Hf Ho Hi Hnull Hx Hroom. unfold show_current.
  rewrite show_current_with_eq.
  by apply (show_loop_skips E _ w f x pre rest Hx dropped).
Qed.

Lemma show_current_skips_unreadable_witness :
  files_order
    (show_current Sessions.E_ok (Sessions.world0 [])
       {| folder := Some "r"; files_order := ["c.png"; "a.jpg"; "b.jpg"];
          index := 1; last_action := None;
          finished_dialog_shown := false |}).2
  = ["c.png"; "b.jpg"].
Proof.
  rewrite (show_current_skips_unreadable Sessions.E_ok (Sessions.world0 [])
             _ "r" "b.jpg" ["c.png"] ["a.jpg"] []);
    [reflexivity | reflexivity | reflexivity | reflexivity | | by_vm
    | simpl; lia].
  constructor; [by_vm | constructor].
Defined.

(** ** What the refresh and a keep do to the files *)

Lemma commit_fs_frame (E : Env) (w : World) (a : App) (k : string) :
  fs (commit_pending_delete E w a).1 !! k = fs w !! k
  ∨ (fs (commit_pending_delete E w a).1 !! k = None
     ∧ ∃ orig, last_action a = Some (Delete orig k)).
Proof.
  unfold commit_pending_delete.
  destruct (last_action a) as [[prev|orig bp]|]; simpl; [by left| |by left].
  case_decide; [by left|]. simpl. unfold try_unlink.
  destruct (rm_ok E bp); [|by left].
  destruct (decide (k = bp)) as [->|].
  - right. rewrite lookup_delete_eq. eauto.
  - left. by rewrite lookup_delete_ne.
Qed.

Lemma show_current_fs_frame (E : Env) (w : World) (a : App) (k : string) :
  fs (show_current E w a).1 !! k = fs w !! k
  ∨ (fs (show_current E w a).1 !! k = None
     ∧ ((∃ orig, last_action a = Some (Delete orig k))
        ∨ (∃ f, folder a = Some f ∧ Paths.parent k = backup_dir f))).
Proof.
  apply (show_current_cases E
    (λ w a r,
       fs r.1 !! k = fs w !! k
       ∨ (fs r.1 !! k = None
          ∧ ((∃ orig, last_action a = Some (Delete orig k))
             ∨ (∃ f, folder a = Some f
                     ∧ Paths.parent k = backup_dir f))))).
  - intros; by left.
  - intros; by left.
  - intros w1 a1 p r _ _ [H|[H1 H2]]; [by left|right].
    split; [done|]. unfold clamp_top in H2. by case_decide.
  - intros; by left.
  - intros w1 a1 w' _ _ Hw'. simpl.
    destruct (commit_fs_frame E (say (FinishDialog BtnExit) w')
                (set_finished_dialog_shown true a1) k) as [H|[H1 H2]].
    + left. rewrite H, Hw'. done.
    + right. split; [done|]. by left.
  - intros w1 a1 w' _ _ Hw' _. simpl.
    destruct (commit_fs_frame E (say (FinishDialog BtnShuffle) w')
                (set_finished_dialog_shown true a1) k) as [H|[H1 H2]].
    + left. rewrite H, Hw'. done.
    + right. split; [done|]. by left.
  - intros w1 a1 w' f r _ _ Hw' Hf [H|[H1 [[orig H2]|(f' & H2 & H3)]]].
    + rewrite H.
      rewrite (clear_backup_dir_lookup E _ _ f k) by done.
      case_bool_decide as Hq.
      * right. split; [congruence|]. right. exists f. tauto.
      * destruct (commit_fs_frame E (say (FinishDialog BtnShuffle) w')
                    (set_finished_dialog_shown true a1) k) as [H'|[H1 H2]].
        -- left. rewrite H', Hw'. done.
        -- right. split; [congruence|]. by left.
    + done.
    + right. split; [done|]. right. exists f'. done.
  - intros w1 a1 w' r _ _ Hw' [H|[H1 H2]]; [left|by right].
    rewrite H, Hw'. done.
Qed.

(** X6.  [show_current] and [request_keep] never create a file and never
    move or rewrite one: every path holds on return what it held before,
    unless the file is gone, and a file can only go when it is the staged
    file of the pending delete or lies directly in the backup directory of
    the open folder.  A keep therefore leaves every image of the folder in
    place. *)
Theorem refresh_and_keep_files (E : Env) (w : World) (a : App) (k : string) :
  (fs (show_current E w a).1 !! k = fs w !! k
   ∨ (fs (show_current E w a).1 !! k = None
      ∧ ((∃ orig, last_action a = Some (Delete orig k))
         ∨ (∃ f, folder a = Some f ∧ Paths.parent k = backup_dir f))))
  ∧ (fs (request_keep E w a).1 !! k = fs w !! k
     ∨ (fs (request_keep E w a).1 !! k = None
        ∧ ((∃ orig, last_action a = Some (Delete orig k))
           ∨ (∃ f, folder a = Some f ∧ Paths.parent k = backup_dir f)))).
Proof.
  split; [apply show_current_fs_frame|].
  unfold request_keep.
  pose proof (commit_app E w a) as Hc.
  pose proof (commit_fs_frame E w a k) as Hfs.
  destruct (commit_pending_delete E w a) as [wc ac]. simpl in *. subst ac.
  destruct (current_path _).
  - unfold advance.
    match goal with |- context [show_current E ?w1 ?a1] =>
      destruct (show_current_fs_frame E w1 a1 k)
        as [H|[H1 [[orig H2]|H2]]] end.
    + rewrite H. destruct Hfs as [Hfs|[Hfs1 Hfs2]]; [by left|right].
      split; [done|by left].
    + done.
    + right. split; [done|by right].
  - destruct Hfs as [Hfs|[Hfs1 Hfs2]]; [by left|right].
    split; [done|by left].
Qed.

(** ** The end of the list *)

Lemma show_current_finish (E : Env) (w : World) (a : App) :
  (last_action (show_current E w a).2 = None
   ∨ last_action (show_current E w a).2 = last_action a)
  ∧ (finished_dialog_shown a = false → current_path a = None →
     last_action (show_current E w a).2 = None).
Proof.
  apply (show_current_cases E
    (λ w a r,
       (last_action r.2 = None ∨ last_action r.2 = last_action a)
       ∧ (finished_dialog_shown a = false → current_path a = None →
          last_action r.2 = None))).
  - intros w1 a1 p Hp _. split; [by right|]. congruence.
  - intros w1 a1 _ Hs. split; [by right|]. congruence.
  - intros w1 a1 p r Hp _ [H _]. split; [|congruence].
    unfold clamp_top in H. by case_decide.
  - intros w1 a1 p Hp _. split; [|congruence].
    right. unfold clamp_top. by case_decide.
  - intros. split; [by left|done].
  - intros. split; [by left|done].
  - intros w1 a1 w' f r _ _ _ _ [[H|H] _]; (split; [by left|done]).
  - intros w1 a1 w' r _ _ _ H. done.
Qed.

(** X7.  When [show_current] is entered at the end of the list with the
    finish dialog not yet shown, nothing is pending when it returns,
    whatever the operator answers: each way out of the dialog commits the
    pending action.  With the dialog already shown it changes nothing. *)
Theorem finish_commits (E : Env) (w : World) (a : App) :
  current_path a = None →
  (finished_dialog_shown a = false →
   last_action (show_current E w a).2 = None)
  ∧ (finished_dialog_shown a = true → show_current E w a = (w, a)).
Proof.
  intros Hp. split.
  - intros Hs. by apply show_current_finish.
  - intros Hs. by apply show_current_exhausted.
Qed.

Lemma finish_commits_witness :
  current_path (set_index 3 Sessions.kept_twice.2) = None
  ∧ last_action
      (show_current Sessions.E_ok Sessions.kept_twice.1
         (set_index 3 Sessions.kept_twice.2)).2 = None.
Proof.
  assert (current_path (set_index 3 Sessions.kept_twice.2) = None)
    as Hp by by_vm.
  split; [exact Hp|].
  apply (finish_commits Sessions.E_ok Sessions.kept_twice.1 _ Hp).
  by_vm.
Defined.

(** X8.  A keep or a delete of the last entry of the list, the finish
    dialog not yet shown, cannot be undone: when the method returns
    nothing is pending, and [undo_last] changes neither the order nor the
    cursor nor the files. *)
Theorem last_entry_commits (E : Env) (w : World) (a : App) (p : string) :
  current_path a = Some p → index a = (len a - 1)%Z →
  finished_dialog_shown a = false →
  last_action (request_keep E w a).2 = None
  ∧ last_action (request_delete E w a).2 = None
  ∧ (undo_last E (request_delete E w a).1 (request_delete E w a).2).2
    = (request_delete E w a).2
  ∧ fs (undo_last E (request_delete E w a).1 (request_delete E w a).2).1
    = fs (request_delete E w a).1.
Proof.
  intros Hp Hi Hs.
  pose proof (pop_current a p Hp) as [Hpop Hlen].
  assert (last_action (request_delete E w a).2 = None) as Hdel.
  { unfold request_delete, request_delete_step.
    pose proof (commit_app E w a) as Hc.
    destruct (commit_pending_delete E w a) as [wc ac]. simpl in Hc. subst ac.
    rewrite (current_path_ext _ a), Hp by done. simpl.
    destruct (folder a); [|done].
    destruct (fs_move _ _ _ _); [|done].
    apply show_current_finish.
    - unfold clamp_top. by case_decide.
    - apply current_path_out_of_range.
      unfold clamp_top, len in *. simpl. case_decide; simpl; lia. }
  split_and!.
  - unfold request_keep.
    pose proof (commit_app E w a) as Hc.
    destruct (commit_pending_delete E w a) as [wc ac]. simpl in Hc. subst ac.
    rewrite (current_path_ext _ a), Hp by done.
    unfold advance. apply show_current_finish; [done|].
    apply current_path_out_of_range. unfold len in *. simpl.
    repeat case_decide; lia.
  - done.
  - by rewrite undo_nothing.
  - by rewrite undo_nothing.
Qed.

Lemma last_entry_commits_witness :
  current_path Sessions.loaded_s.2 = Some "s/only.jpg"
  ∧ last_action (request_delete Sessions.E_ok Sessions.loaded_s.1
                   Sessions.loaded_s.2).2 = None.
Proof.
  assert (current_path Sessions.loaded_s.2 = Some "s/only.jpg")
    as Hp by by_vm.
  split; [exact Hp|].
  apply (last_entry_commits Sessions.E_ok Sessions.loaded_s.1
           Sessions.loaded_s.2 _ Hp); by_vm.
Defined.

(** ** Keep, and keep followed by undo *)

(** X9.  With a current entry, [request_keep] records the keep with the
    cursor it was issued at, moves the cursor forward by exactly one and
    leaves the order as it is, then refreshes the display; when the entry
    now at the cursor loads, that is the session it returns, and the files
    are those the commit of the earlier action left. *)
Theorem request_keep_effect (E : Env) (w : World) (a : App) (p : string) :
  current_path a = Some p →
  request_keep E w a
  = show_current E (commit_pending_delete E w a).1
      (set_index (index a + 1) (set_last_action (Some (Keep (index a))) a))
  ∧ (shows E (fs (commit_pending_delete E w a).1)
       (set_index (index a + 1) a) = true →
     files_order (request_keep E w a).2 = files_order a
     ∧ index (request_keep E w a).2 = (index a + 1)%Z
     ∧ last_action (request_keep E w a).2 = Some (Keep (index a))
     ∧ fs (request_keep E w a).1 = fs (commit_pending_delete E w a).1).
Proof.
  intros Hp. split; [by apply (request_keep_step E w a p)|].
  intros Hshows. rewrite (request_keep_step E w a p Hp).
  unfold shows in Hshows.
  rewrite (current_path_ext _
             (set_index (index a + 1)
                (set_last_action (Some (Keep (index a))) a))) in Hshows
    by done.
  destruct (current_path
              (set_index (index a + 1)
                 (set_last_action (Some (Keep (index a))) a)))
    as [q|] eqn:Hq; [|done].
  apply negb_true_iff in Hshows.
  by rewrite (show_current_shows E _ _ q Hq Hshows).
Qed.

Lemma request_keep_effect_witness :
  current_path Sessions.loaded_t.2 = Some "t/3.jpg"
  ∧ index (request_keep Sessions.E_ok Sessions.loaded_t.1
             Sessions.loaded_t.2).2 = (index Sessions.loaded_t.2 + 1)%Z.
Proof.
  assert (current_path Sessions.loaded_t.2 = Some "t/3.jpg") as Hp by by_vm.
  split; [exact Hp|].
  destruct (request_keep_effect Sessions.E_ok Sessions.loaded_t.1
              Sessions.loaded_t.2 _ Hp) as [_ H].
  destruct H as (_ & Hi & _); [by_vm | exact Hi].
Defined.

(** X10.  Keep followed by undo is a round trip: when the entry kept is
    one that loads and the entry after it loads too, [undo_last] right
    after [request_keep] gives back the order and the cursor of before,
    with nothing pending, and no file has changed since the commit of the
    earlier action. *)
Theorem keep_undo_roundtrip (E : Env) (w : World) (a : App) :
  shows E (fs (commit_pending_delete E w a).1) a = true →
  shows E (fs (commit_pending_delete E w a).1) (set_index (index a + 1) a)
  = true →
  files_order (undo_last E (request_keep E w a).1 (request_keep E w a).2).2
  = files_order a
  ∧ index (undo_last E (request_keep E w a).1 (request_keep E w a).2).2
    = index a
  ∧ last_action
      (undo_last E (request_keep E w a).1 (request_keep E w a).2).2 = None
  ∧ fs (undo_last E (request_keep E w a).1 (request_keep E w a).2).1
    = fs (commit_pending_delete E w a).1.
Proof.
  intros Hcur Hnext. unfold shows in Hcur, Hnext.
  destruct (current_path a) as [p|] eqn:Hp; [|done].
  pose proof (current_path_Some a p Hp) as (f & rel & _ & Hi & _).
  rewrite (request_keep_step E w a p Hp).
  rewrite (current_path_ext _
             (set_index (index a + 1)
                (set_last_action (Some (Keep (index a))) a))) in Hnext
    by done.
  destruct (current_path
              (set_index (index a + 1)
                 (set_last_action (Some (Keep (index a))) a)))
    as [q|] eqn:Hq; [|done].
  apply negb_true_iff in Hcur, Hnext.
  rewrite (show_current_shows E _ _ q Hq Hnext).
  unfold undo_last. simpl. rewrite decide_True by lia.
  rewrite (show_current_shows E _ _ p); [| |done].
  - simpl. split_and!; [done|lia|done|done].
  - rewrite <- Hp. apply current_path_ext; simpl; [done|done|lia].
Qed.

Lemma keep_undo_roundtrip_witness :
  index (undo_last Sessions.E_ok
           (request_keep Sessions.E_ok Sessions.loaded_t.1
              Sessions.loaded_t.2).1
           (request_keep Sessions.E_ok Sessions.loaded_t.1
              Sessions.loaded_t.2).2).2 = index Sessions.loaded_t.2.
Proof.
  destruct (keep_undo_roundtrip Sessions.E_ok Sessions.loaded_t.1
              Sessions.loaded_t.2) as (_ & Hi & _); [by_vm | by_vm |].
  exact Hi.
Defined.

(** ** Opening a folder *)

(** X11.  When the scan finds images, the shuffle permutes them and the
    first image of the shuffled order loads, [load_folder] starts the
    session on that order: it lists every eligible file of the folder
    exactly once, the cursor is 0, nothing is pending, the finish dialog
    counts as not shown, and the files are those of before less what
    [_clear_backup_dir] removed. *)
Theorem load_folder_starts_session
    (E : Env) (f : string) (w : World) (a : App) :
  scan_images_recursive f (fs w) ≠ [] →
  random_shuffle E (Z.lxor (path_hash E f) (now w))
    (scan_images_recursive f (fs w))
  ≡ₚ scan_images_recursive f (fs w) →
  shows E (fs (clear_backup_dir E w (set_folder (Some f) a)))
    (set_index 0
       (set_files_order
          (random_shuffle E (Z.lxor (path_hash E f) (now w))
             (scan_images_recursive f (fs w)))
          (set_folder (Some f) a))) = true →
  folder (load_folder E f w a).2 = Some f
  ∧ files_order (load_folder E f w a).2 ≡ₚ scan_images_recursive f (fs w)
  ∧ NoDup (files_order (load_folder E f w a).2)
  ∧ index (load_folder E f w a).2 = 0%Z
  ∧ last_action (load_folder E f w a).2 = None
  ∧ finished_dialog_shown (load_folder E f w a).2 = false
  ∧ fs (load_folder E f w a).1
    = fs (clear_backup_dir E w (set_folder (Some f) a)).
Proof.
  intros Hne Hperm Hshows. unfold load_folder. simpl.
  destruct (scan_images_recursive f (fs w)) as [|x l] eqn:Hscan; [done|].
  unfold shows in Hshows.
  match goal with |- context [show_current E ?w1 ?a1] =>
    rewrite (current_path_ext _ a1) in Hshows by done;
    destruct (current_path a1) as [q|] eqn:Hq; [|done];
    apply negb_true_iff in Hshows;
    rewrite (show_current_shows E w1 a1 q Hq) by exact Hshows
  end.
  simpl. split_and!; try done.
  rewrite Hperm, <- Hscan.
  apply (scan_images_recursive_nodup f (fs w)).
Qed.

Lemma load_folder_starts_session_witness :
  scan_images_recursive "t" (fs (Sessions.world0 [])) ≠ []
  ∧ index (load_folder Sessions.E_ok "t" (Sessions.world0 []) init).2 = 0%Z
  ∧ NoDup (files_order
             (load_folder Sessions.E_ok "t" (Sessions.world0 []) init).2).
Proof.
  assert (scan_images_recursive "t" (fs (Sessions.world0 []))
          = ["3.jpg"; "1.jpg"; "2.jpg"]) as Hscan by by_vm.
  assert (scan_images_recursive "t" (fs (Sessions.world0 [])) ≠ [])
    as Hne by (by rewrite Hscan).
  split; [exact Hne|].
  destruct (load_folder_starts_session Sessions.E_ok "t"
              (Sessions.world0 []) init Hne)
    as (_ & _ & Hnd & Hi & _); [done | by_vm |].
  split; [exact Hi | exact Hnd].
Defined.

(** ** Undoing a delete *)

Lemma list_insert_at_cursor (i : Z) (x : string) (l : list string) :
  (0 <= i <= Z.of_nat (length l))%Z →
  list_insert_at (Z.max (Z.min i (Z.of_nat (length l))) 0) x l
  = (take (Z.to_nat i) l ++ x :: drop (Z.to_nat i) l)%list
  ∧ (take (Z.to_nat i) l ++ x :: drop (Z.to_nat i) l)%list !! Z.to_nat i
    = Some x.
Proof.
  intros Hi. split.
  - unfold list_insert_at. rewrite decide_False by lia.
    by replace (Z.min (Z.max (Z.min i (Z.of_nat (length l))) 0)
                  (Z.of_nat (length l))) with i by lia.
  - rewrite lookup_app_r by (rewrite length_take; lia).
    rewrite length_take.
    by replace (Z.to_nat i - Z.to_nat i `min` length l)%nat with 0%nat
      by lia.
Qed.

(** What [undo_last] does with a pending delete whose staged file is there
    and can be moved back. *)
Lemma undo_last_restores
    (E : Env) (w : World) (a : App) (f orig bp bytes : string) :
  last_action a = Some (Delete orig bp) → folder a = Some f →
  fs w !! bp = Some bytes →
  mv_ok E bp (restore_dest (fs w) (dirs w) f orig) = true →
  cursor_inv a → decodes E bytes = true →
  ∃ rel,
    restore_dest (fs w) (dirs w) f orig = f // rel
    ∧ fs w !! (f // rel) = None
    ∧ (f // rel ∉ dirs w)
    ∧ (fs w !! (f // orig) = None → (f // orig ∉ dirs w) → rel = orig)
    ∧ fs (undo_last E w a).1 = <[f // rel := bytes]> (delete bp (fs w))
    ∧ files_order (undo_last E w a).2
      = (take (Z.to_nat (index a)) (files_order a)
         ++ rel :: drop (Z.to_nat (index a)) (files_order a))%list
    ∧ index (undo_last E w a).2 = index a
    ∧ last_action (undo_last E w a).2 = None
    ∧ current_path (undo_last E w a).2 = Some (f // rel).
Proof.
  intros Ha Hf Hbp Hmv Hinv Hdec.
  destruct (restore_dest_inside (fs w) (dirs w) f orig)
    as (rel & Hdest & Hfree & Ho).
  apply path_exists_false in Hfree as [Hfile Hdir].
  exists rel. unfold cursor_inv, len in Hinv.
  destruct (list_insert_at_cursor (index a) rel (files_order a) Hinv)
    as [Hins Hlook].
  rewrite (undo_last_success E w a f orig bp bytes rel Ha Hf Hbp Hmv Hdest).
  unfold len. rewrite Hins.
  replace (Z.max (Z.min (index a) (Z.of_nat (length (files_order a)))) 0)
    with (index a) by lia.
  set (l := (take (Z.to_nat (index a)) (files_order a)
             ++ rel :: drop (Z.to_nat (index a)) (files_order a))%list)
    in *.
  set (a' := set_index (index a)
               (set_files_order l (set_last_action None a))).
  assert (current_path a' = Some (f // rel)) as Hcur.
  { unfold current_path, len. simpl. rewrite Hf.
    assert (length l = S (length (files_order a))) as Hlen.
    { unfold l. rewrite length_app, length_take. simpl.
      rewrite length_drop. lia. }
    destruct l as [|y l'] eqn:Hl; [done|]. rewrite <- Hl in *.
    rewrite decide_True by lia. by rewrite Hlook. }
  rewrite (show_current_shows E _ a' (f // rel) Hcur)
    by (unfold pix_is_null; simpl; by rewrite lookup_insert_eq, Hdec).
  split_and!; try done.
  intros H1 H2. apply Ho. by apply path_exists_false.
Qed.

(** X12.  [undo_last] on a pending delete never overwrites a file.  When
    the staged file is still there and the move back is carried out, it
    goes to a path below the folder that neither a file nor a directory
    bears (the original path when nothing bears it, a fresh neighbour
    otherwise), with its bytes; no other file changes.  Its entry comes
    back at the cursor, which stays where it was, nothing is pending any
    more, and, the bytes being an image, the restored file is the one on
    display. *)
Theorem undo_restores_file
    (E : Env) (w : World) (a : App) (f orig bp bytes : string) :
  last_action a = Some (Delete orig bp) → folder a = Some f →
  fs w !! bp = Some bytes →
  mv_ok E bp (restore_dest (fs w) (dirs w) f orig) = true →
  cursor_inv a → decodes E bytes = true →
  ∃ rel,
    restore_dest (fs w) (dirs w) f orig = f // rel
    ∧ fs w !! (f // rel) = None
    ∧ (f // rel ∉ dirs w)
    ∧ (fs w !! (f // orig) = None → (f // orig ∉ dirs w) → rel = orig)
    ∧ fs (undo_last E w a).1 = <[f // rel := bytes]> (delete bp (fs w))
    ∧ files_order (undo_last E w a).2
      = (take (Z.to_nat (index a)) (files_order a)
         ++ rel :: drop (Z.to_nat (index a)) (files_order a))%list
    ∧ index (undo_last E w a).2 = index a
    ∧ last_action (undo_last E w a).2 = None
    ∧ current_path (undo_last E w a).2 = Some (f // rel).
Proof. apply undo_last_restores. Qed.

Lemma undo_restores_file_witness :
  last_action Sessions.staged_t.2
  = Some (Delete "3.jpg" "t/.pswipe_last_backup/3.jpg")
  ∧ ∃ rel,
      fs (undo_last Sessions.E_ok Sessions.staged_t.1 Sessions.staged_t.2).1
      = <[ "t" // rel := "3" ]>
          (delete "t/.pswipe_last_backup/3.jpg" (fs Sessions.staged_t.1)).
Proof.
  assert (last_action Sessions.staged_t.2
          = Some (Delete "3.jpg" "t/.pswipe_last_backup/3.jpg")) as Ha
    by by_vm.
  split; [exact Ha|].
  destruct (undo_restores_file Sessions.E_ok Sessions.staged_t.1
              Sessions.staged_t.2 "t" "3.jpg"
              "t/.pswipe_last_backup/3.jpg" "3" Ha)
    as (rel & _ & _ & _ & _ & Hfs & _).
  - by_vm.
  - by_vm.
  - reflexivity.
  - unfold cursor_inv.
    assert (index Sessions.staged_t.2 = 0%Z) as -> by by_vm.
    assert (len Sessions.staged_t.2 = 2%Z) as -> by by_vm. lia.
  - reflexivity.
  - exists rel. exact Hfs.
Defined.

(** ** Staging a delete *)

(** X13.  [request_delete] never overwrites a file either.  When the file
    of the current entry is there and the move is carried out, it goes,
    with its bytes, to a path directly in the backup directory that neither
    a file nor a directory bears, no other file changes, and the pending
    delete records that path; these are the files on return when the entry
    that follows loads. *)
Theorem delete_stages_file
    (E : Env) (w : World) (a : App) (f rel bytes : string) :
  folder a = Some f → current_path a = Some (f // rel) →
  fs (commit_pending_delete E w a).1 !! (f // rel) = Some bytes →
  mv_ok E (f // rel)
    (backup_target (fs (commit_pending_delete E w a).1)
       (dirs (commit_pending_delete E w a).1) f rel) = true →
  ∃ n,
    backup_target (fs (commit_pending_delete E w a).1)
      (dirs (commit_pending_delete E w a).1) f rel
    = backup_dir f // n
    ∧ Paths.parent (backup_dir f // n) = backup_dir f
    ∧ fs (commit_pending_delete E w a).1 !! (backup_dir f // n) = None
    ∧ (backup_dir f // n ∉ dirs (commit_pending_delete E w a).1)
    ∧ fs (request_delete_step E w a).1.1
      = <[backup_dir f // n := bytes]>
          (delete (f // rel) (fs (commit_pending_delete E w a).1))
    ∧ last_action (request_delete_step E w a).1.2
      = Some (Delete rel (backup_dir f // n))
    ∧ (shows E (fs (request_delete_step E w a).1.1)
         (request_delete_step E w a).1.2 = true →
       fs (request_delete E w a).1
       = <[backup_dir f // n := bytes]>
           (delete (f // rel) (fs (commit_pending_delete E w a).1))
       ∧ last_action (request_delete E w a).2
         = Some (Delete rel (backup_dir f // n))).
Proof.
  intros Hf Hp Hbytes Hmv.
  destruct (current_path_Some a _ Hp) as (f' & rel' & Hf' & Hi & Hrel & Heq).
  assert (f' = f) as -> by congruence.
  apply join_inj in Heq as <-.
  set (wc := (commit_pending_delete E w a).1) in *.
  destruct (unique_name_inside (fs wc) (dirs wc) (backup_dir f)
              (Paths.name rel)) as [n Hn].
  pose proof (unique_name_free (fs wc) (dirs wc) (backup_dir f)
                (Paths.name rel)) as Hfree.
  apply path_exists_false in Hfree as [Hfile Hdir].
  pose proof (backup_target_parent (fs wc) (dirs wc) f rel) as Hparent.
  fold (backup_target (fs wc) (dirs wc) f rel) in Hn, Hfile, Hdir.
  assert (fs_move E (f // rel) (backup_target (fs wc) (dirs wc) f rel)
            (fs wc)
          = Some (<[backup_target (fs wc) (dirs wc) f rel := bytes]>
                    (delete (f // rel) (fs wc))))
    as Hmove by (unfold fs_move; by rewrite Hbytes, Hmv).
  pose proof (request_delete_step_success E w a _ f rel _ Hp Hf Hrel Hmove)
    as Hstep.
  fold wc in Hstep.
  exists n. rewrite <- Hn.
  split_and!; [done|done|done|done|by rewrite Hstep|by rewrite Hstep|].
  intros Hshows. unfold request_delete. rewrite Hstep in Hshows |- *.
  cbn [fst snd] in Hshows |- *. unfold shows in Hshows.
  match type of Hshows with
  | match current_path ?a1 with _ => _ end = true =>
      destruct (current_path a1) as [q|] eqn:Hq; [|done];
      apply negb_true_iff in Hshows;
      rewrite (show_current_shows E _ a1 q Hq) by exact Hshows
  end.
  done.
Qed.

Lemma delete_stages_file_witness :
  current_path Sessions.loaded_t.2 = Some ("t" // "3.jpg")
  ∧ ∃ n,
      last_action
        (request_delete_step Sessions.E_ok Sessions.loaded_t.1
           Sessions.loaded_t.2).1.2
      = Some (Delete "3.jpg" (backup_dir "t" // n)).
Proof.
  assert (current_path Sessions.loaded_t.2 = Some ("t" // "3.jpg")) as Hp
    by by_vm.
  split; [exact Hp|].
  destruct (delete_stages_file Sessions.E_ok Sessions.loaded_t.1
              Sessions.loaded_t.2 "t" "3.jpg" "3")
    as (n & _ & _ & _ & _ & _ & Ha & _).
  - by_vm.
  - exact Hp.
  - by_vm.
  - reflexivity.
  - exists n. exact Ha.
Defined.

(** ** Starting over from the finish dialog *)






(** ** The image view *)

(** Without a press the token of the press stays and the token of the
    image only grows, strictly so with a [set_image]; a drag stays a
    drag. *)
Lemma view_run_tokens (evs : list ViewEvent) (v : ImageView) :
  Forall (λ e, is_press e = false) evs →
  press_token (view_run evs v) = press_token v
  ∧ dragging (view_run evs v) = dragging v
  ∧ drag_start (view_run evs v) = drag_start v
  ∧ (image_token v <= image_token (view_run evs v))%Z
  ∧ (Exists (λ e, is_set_image e = true) evs →
     (image_token v < image_token (view_run evs v))%Z).
Proof.
  intros Hevs. revert v.
  induction Hevs as [|e evs He _ IH]; intros v.
  - simpl. split_and!; [done|done|done|lia|]. by intros ?%Exists_nil.
  - unfold view_run in *. simpl foldl.
    destruct (IH (view_step v e)) as (IH1 & IH2 & IH3 & IH4 & IH5).
    rewrite IH1, IH2, IH3.
    destruct e as [b x|x|p]; [done| |]; simpl in IH4, IH5 |- *.
    + assert (press_token (mouseMoveEvent x v) = press_token v
              ∧ dragging (mouseMoveEvent x v) = dragging v
              ∧ drag_start (mouseMoveEvent x v) = drag_start v
              ∧ image_token (mouseMoveEvent x v) = image_token v)
        as (H1 & H2 & H3 & H4).
      { unfold mouseMoveEvent.
        by destruct (dragging v) eqn:Hd, (drag_start v) eqn:Hs. }
      rewrite H1, H2, H3. rewrite H4 in IH4, IH5.
      split_and!; [done|done|done|done|].
      intros [H|H]%Exists_cons; [done|by apply IH5].
    + split_and!; [done|done|done|lia|]. intros _. lia.
Qed.

(** X15.  A swipe that began on an earlier image is dropped.  After a
    press with the left button, if the image is replaced before the button
    is released (any number of moves and [set_image] calls in between, at
    least one [set_image], no further press), the release asks nothing of
    the window, wherever it happens; it only ends the drag and puts the
    image back in place. *)
Theorem stale_swipe_is_dropped
    (v : ImageView) (x0 x : Z) (evs : list ViewEvent) :
  Forall (λ e, is_press e = false) evs →
  Exists (λ e, is_set_image e = true) evs →
  (mouseReleaseEvent x (view_run evs (mousePressEvent true x0 v))).2 = None
  ∧ dragging
      (mouseReleaseEvent x (view_run evs (mousePressEvent true x0 v))).1
    = false
  ∧ offset_x
      (mouseReleaseEvent x (view_run evs (mousePressEvent true x0 v))).1
    = 0%Z
  ∧ overlay_text
      (mouseReleaseEvent x (view_run evs (mousePressEvent true x0 v))).1
    = None.
Proof.
  intros Hevs Hset.
  destruct (view_run_tokens evs (mousePressEvent true x0 v) Hevs)
    as (H1 & H2 & H3 & _ & H5).
  specialize (H5 Hset).
  unfold mouseReleaseEvent. rewrite H1, H2, H3.
  change (dragging (mousePressEvent true x0 v)) with true.
  change (drag_start (mousePressEvent true x0 v)) with (Some x0).
  change (press_token (mousePressEvent true x0 v))
    with (Some (image_token (mousePressEvent true x0 v))).
  cbv iota beta.
  rewrite decide_False; [done|].
  intros [= Heq]. simpl in H5. lia.
Qed.

Lemma stale_swipe_is_dropped_witness :
  (mouseReleaseEvent 500
     (view_run [EvMove 400; EvSetImage "t/2.jpg"; EvMove 450]
        (mousePressEvent true 100 view_init))).2 = None.
Proof.
  apply (stale_swipe_is_dropped view_init 100 500
           [EvMove 400; EvSetImage "t/2.jpg"; EvMove 450]).
  - repeat constructor.
  - apply Exists_cons_tl, Exists_cons_hd. reflexivity.
Defined.

Lemma view_run_moves (xs : list Z) (v : ImageView) (x0 : Z) :
  dragging v = true → drag_start v = Some x0 →
  pix (view_run (EvMove <$> xs) v) = pix v
  ∧ dragging (view_run (EvMove <$> xs) v) = true
  ∧ drag_start (view_run (EvMove <$> xs) v) = Some x0
  ∧ image_token (view_run (EvMove <$> xs) v) = image_token v
  ∧ press_token (view_run (EvMove <$> xs) v) = press_token v
  ∧ (∀ y, last xs = Some y →
       offset_x (view_run (EvMove <$> xs) v) = (y - x0)%Z
       ∧ overlay_text (view_run (EvMove <$> xs) v)
         = Some (if decide (0 < y - x0)%Z then "MANTER" else "DELETAR")).
Proof.
  revert v. induction xs as [|x xs IH]; intros v Hd Hs.
  - by split_and!.
  - unfold view_run in *. rewrite fmap_cons. cbn [foldl view_step].
    assert (mouseMoveEvent x v
            = {| pix := pix v; dragging := true; drag_start := Some x0;
                 offset_x := x - x0;
                 overlay_text :=
                   Some (if decide (0 < x - x0)%Z
                         then "MANTER" else "DELETAR");
                 image_token := image_token v;
                 press_token := press_token v |}) as Hmove.
    { unfold mouseMoveEvent. by rewrite Hd, Hs. }
    destruct (IH (mouseMoveEvent x v)) as (H1 & H2 & H3 & H4 & H5 & H6);
      [by rewrite Hmove..|].
    rewrite H1, H2, H3, H4, H5. rewrite Hmove. simpl.
    split_and!; [done..|].
    intros y Hy. destruct xs as [|x' xs'].
    + simpl in Hy |- *. by injection Hy as <-.
    + rewrite Hmove in H6. by apply H6.
Qed.

(** X16.  What a swipe asks of the window depends only on where the left
    button went down and where it came up: released 120 pixels or more to
    the left it asks for a delete, 120 or more to the right for a keep, in
    between for nothing, whatever moves came in between.  While the button
    is down the image follows the pointer and the overlay names the side it
    is on; the release puts the image back and clears the overlay. *)
Theorem swipe_decision (v : ImageView) (x0 x : Z) (xs : list Z) :
  mouseReleaseEvent x (view_run (EvMove <$> xs) (mousePressEvent true x0 v))
  = ({| pix := pix v; dragging := false; drag_start := None;
        offset_x := 0; overlay_text := None;
        image_token := image_token v;
        press_token := Some (image_token v) |},
     if decide (x - x0 <= -120)%Z then Some SwipeDelete
     else if decide (120 <= x - x0)%Z then Some SwipeKeep
     else None)
  ∧ (∀ y, last xs = Some y →
       offset_x (view_run (EvMove <$> xs) (mousePressEvent true x0 v))
       = (y - x0)%Z
       ∧ overlay_text
           (view_run (EvMove <$> xs) (mousePressEvent true x0 v))
         = Some (if decide (0 < y - x0)%Z then "MANTER" else "DELETAR")).
Proof.
  destruct (view_run_moves xs (mousePressEvent true x0 v) x0)
    as (H1 & H2 & H3 & H4 & H5 & H6); [done..|].
  split; [|exact H6].
  unfold mouseReleaseEvent. rewrite H1, H2, H3, H4, H5.
  change (press_token (mousePressEvent true x0 v))
    with (Some (image_token (mousePressEvent true x0 v))).
  cbv iota beta. rewrite decide_True by done.
  change (pix (mousePressEvent true x0 v)) with (pix v).
  change (image_token (mousePressEvent true x0 v)) with (image_token v).
  by repeat case_decide.
Qed.

(** ** Undo after a folder without images was opened *)

(** X17.  Opening a folder without images keeps the pending delete of the
    session before, and the undo that follows restores the staged file
    into the folder just opened: it goes to the free path for its recorded
    relative name below the new folder (that name itself when nothing
    bears it), not back to where it was deleted, and is put on display from
    there. *)
Theorem undo_after_empty_folder
    (E : Env) (w : World) (a : App) (g orig bp bytes : string) :
  scan_images_recursive g (fs w) = [] →
  last_action a = Some (Delete orig bp) →
  fs w !! bp = Some bytes →
  mv_ok E bp (restore_dest (fs w) (dirs w) g orig) = true →
  cursor_inv a → decodes E bytes = true →
  ∃ rel,
    restore_dest (fs w) (dirs w) g orig = g // rel
    ∧ fs w !! (g // rel) = None
    ∧ (fs w !! (g // orig) = None → (g // orig ∉ dirs w) → rel = orig)
    ∧ fs (undo_last E (load_folder E g w a).1 (load_folder E g w a).2).1
      = <[g // rel := bytes]> (delete bp (fs w))
    ∧ current_path
        (undo_last E (load_folder E g w a).1 (load_folder E g w a).2).2
      = Some (g // rel)
    ∧ last_action
        (undo_last E (load_folder E g w a).1 (load_folder E g w a).2).2
      = None.
Proof.
  intros Hscan Ha Hbp Hmv Hinv Hdec.
  assert (load_folder E g w a
          = (say (Information "Vazio")
               (say (StatusMessage ("Carregando pasta: " +:+ g)) w),
             set_folder (Some g) a)) as ->.
  { unfold load_folder. simpl. by rewrite Hscan. }
  cbn [fst snd].
  destruct (undo_last_restores E
              (say (Information "Vazio")
                 (say (StatusMessage ("Carregando pasta: " +:+ g)) w))
              (set_folder (Some g) a) g orig bp bytes)
    as (rel & H1 & H2 & _ & H3 & H4 & _ & _ & H7 & H8); [done..|].
  exists rel. by split_and!.
Qed.

Lemma undo_after_empty_folder_witness :
  scan_images_recursive "q" (fs Sessions.staged_t.1) = []
  ∧ ∃ rel,
      current_path
        (undo_last Sessions.E_ok
           (load_folder Sessions.E_ok "q" Sessions.staged_t.1
              Sessions.staged_t.2).1
           (load_folder Sessions.E_ok "q" Sessions.staged_t.1
              Sessions.staged_t.2).2).2
      = Some ("q" // rel).
Proof.
  assert (scan_images_recursive "q" (fs Sessions.staged_t.1) = []) as Hscan
    by by_vm.
  split; [exact Hscan|].
  destruct (undo_after_empty_folder Sessions.E_ok Sessions.staged_t.1
              Sessions.staged_t.2 "q" "3.jpg"
              "t/.pswipe_last_backup/3.jpg" "3" Hscan)
    as (rel & _ & _ & _ & _ & Hcur & _).
  - by_vm.
  - by_vm.
  - reflexivity.
  - unfold cursor_inv.
    assert (index Sessions.staged_t.2 = 0%Z) as -> by by_vm.
    assert (len Sessions.staged_t.2 = 2%Z) as -> by by_vm. lia.
  - reflexivity.
  - exists rel. exact Hcur.
Defined.
